(** * vs-preview scening toolbar: import / export engine

    A shallow embedding of [vspreview/toolbars/scening/toolbar.py]
    (class [SceningToolbar]) together with the properties stated about it.

    Conventions.
    - A Python [str] is a [text]: a list of characters, each one standing
      for a code point below 256.
    - A Python [int] is a [Z]; a Python [float] is a binary64 number,
      a [pyfloat], and its arithmetic rounds to the nearest, ties to even.
    - A Python exception is an [exn]; code that may raise lives in the
      monad [M], which threads the importer's mutable objects and keeps
      them as they are at the moment an exception is raised.
    - The collaborators that live outside the toolbar module ([Frame],
      [Time], [Scene], [SceningList], [SceningLists], [try_load]) are
      modelled from the specification; each such definition says so. *)

From Stdlib Require Import List String Ascii ZArith NArith QArith Qround Qabs Bool Lia.
From Stdlib Require Import DecimalPos DecimalN.
Import ListNotations.

Local Open Scope Z_scope.

(** ** Python text primitives *)

Definition text := list ascii.

Definition txt (s : string) : text := list_ascii_of_string s.
Arguments txt : simpl never.

Definition code (c : ascii) : N := N_of_ascii c.

(** [str.isspace] on one code point below 256: TAB..CR, FS..US, space,
    NEL and NBSP. *)
Definition isspace (c : ascii) : bool :=
  let n := code c in
  ((9 <=? n) && (n <=? 13) || (28 <=? n) && (n <=? 32)
   || (n =? 133) || (n =? 160))%N.

(** Decimal digits ([\d], and the digits accepted by [int]). *)
Definition isdigit (c : ascii) : bool :=
  let n := code c in ((48 <=? n) && (n <=? 57))%N.

Definition digit_value (c : ascii) : Z := Z.of_N (code c) - 48.

(** Line boundaries of [str.splitlines]: LF, VT, FF, CR, FS, GS, RS, NEL. *)
Definition islinebreak (c : ascii) : bool :=
  let n := code c in
  ((10 <=? n) && (n <=? 13) || (28 <=? n) && (n <=? 30) || (n =? 133))%N.

Definition LF : ascii := "010"%char.
Definition CR : ascii := "013"%char.

Definition is_nil {A} (l : list A) : bool :=
  match l with [] => true | _ => false end.

(** [str.splitlines()]: [cur] is the line being read. *)
Fixpoint splitlines_from (cur : text) (s : text) : list text :=
  match s with
  | [] => if is_nil cur then [] else [cur]
  | c :: s' =>
      if Ascii.eqb c CR then
        match s' with
        | c' :: s'' =>
            if Ascii.eqb c' LF then cur :: splitlines_from [] s''
            else cur :: splitlines_from [] s'
        | [] => cur :: splitlines_from [] s'
        end
      else if islinebreak c then cur :: splitlines_from [] s'
      else splitlines_from (cur ++ [c]) s'
  end.

Definition splitlines (s : text) : list text := splitlines_from [] s.

(** [str.split()] with no argument: the maximal runs of non-whitespace. *)
Fixpoint split_from (cur : text) (s : text) : list text :=
  match s with
  | [] => if is_nil cur then [] else [cur]
  | c :: s' =>
      if isspace c then
        (if is_nil cur then split_from [] s' else cur :: split_from [] s')
      else split_from (cur ++ [c]) s'
  end.

Definition split (s : text) : list text := split_from [] s.

Fixpoint lstrip (s : text) : text :=
  match s with
  | c :: s' => if isspace c then lstrip s' else s
  | [] => []
  end.

Definition strip (s : text) : text := rev (lstrip (rev (lstrip s))).

Fixpoint startswith (s prefix : text) {struct prefix} : bool :=
  match prefix, s with
  | [], _ => true
  | p :: prefix', c :: s' => Ascii.eqb p c && startswith s' prefix'
  | _ :: _, [] => false
  end.

(** [str.find]: index of the first occurrence, or [-1]. *)
Fixpoint find_from (i : Z) (s sub : text) : Z :=
  if startswith s sub then i
  else match s with
       | [] => -1
       | _ :: s' => find_from (i + 1) s' sub
       end.

Definition find (s sub : text) : Z := find_from 0 s sub.

(** The slice [s[i:]] for [i >= 0]. *)
Definition slice_from (s : text) (i : Z) : text := skipn (Z.to_nat i) s.

(** ** Exceptions and results *)

Inductive exn : Type :=
| ValueError
| IndexError
| KeyError (key : text)
| TypeError
| ZeroDivisionError
| OverflowError.

Inductive result (A : Type) : Type :=
| Ok (a : A)
| Raise (e : exn).
Arguments Ok {A} a.
Arguments Raise {A} e.

Definition is_ValueError (e : exn) : bool :=
  match e with ValueError => true | _ => false end.

Definition is_KeyError (e : exn) : bool :=
  match e with KeyError _ => true | _ => false end.

Definition is_KeyError_or_TypeError (e : exn) : bool :=
  match e with KeyError _ | TypeError => true | _ => false end.

(** ** [int(str)] and [str(int)] *)

(** The digits of a decimal literal, most significant first; a single
    underscore is allowed between two digits.  [prev] tells whether the
    previous character was a digit. *)
Fixpoint int_digits (prev : bool) (acc : Z) (s : text) : option Z :=
  match s with
  | [] => if prev then Some acc else None
  | c :: s' =>
      if isdigit c then int_digits true (10 * acc + digit_value c) s'
      else if Ascii.eqb c "_"%char then
        (if prev then
           match s' with
           | d :: _ => if isdigit d then int_digits false acc s' else None
           | [] => None
           end
         else None)
      else None
  end.

(** The value of a run of digits read after [acc]. *)
Definition digits_value (acc : Z) (w : text) : Z :=
  fold_left (fun a c => 10 * a + digit_value c) w acc.

(** [int(s)] in base ten: surrounding whitespace is stripped, one sign is
    accepted, anything else raises [ValueError].  (CPython 3.11 also
    refuses, by default, a literal of more than 4300 digits; this setting
    of the interpreter, [int_max_str_digits] below, is no part of the
    function here, and what is stated of an [int] outside a handler is
    stated of texts within the limit.) *)
Definition int_of_str (s : text) : result Z :=
  let body sgn r :=
    match int_digits false 0 r with
    | Some n => Ok (sgn * n)
    | None => Raise ValueError
    end in
  match strip s with
  | c :: r =>
      if Ascii.eqb c "-"%char then body (-1) r
      else if Ascii.eqb c "+"%char then body 1 r
      else body 1 (c :: r)
  | [] => Raise ValueError
  end.

Definition digit_char (n : N) : ascii := ascii_of_N (48 + n).

Fixpoint uint_text (d : Decimal.uint) : text :=
  match d with
  | Decimal.Nil => []
  | Decimal.D0 d' => digit_char 0 :: uint_text d'
  | Decimal.D1 d' => digit_char 1 :: uint_text d'
  | Decimal.D2 d' => digit_char 2 :: uint_text d'
  | Decimal.D3 d' => digit_char 3 :: uint_text d'
  | Decimal.D4 d' => digit_char 4 :: uint_text d'
  | Decimal.D5 d' => digit_char 5 :: uint_text d'
  | Decimal.D6 d' => digit_char 6 :: uint_text d'
  | Decimal.D7 d' => digit_char 7 :: uint_text d'
  | Decimal.D8 d' => digit_char 8 :: uint_text d'
  | Decimal.D9 d' => digit_char 9 :: uint_text d'
  end.

(** [str(n)] for an [int]. *)
Definition str_of_int (n : Z) : text :=
  if n <? 0 then "-"%char :: uint_text (N.to_uint (Z.abs_N n))
  else uint_text (N.to_uint (Z.to_N n)).

(** ** A monad for code that mutates its objects and may raise

    A computation receives the mutable objects it works on ([S]) and gives
    them back as they are when it returns or raises. *)

Definition M (S A : Type) : Type := S -> S * result A.

Definition ret {S A} (a : A) : M S A := fun s => (s, Ok a).

Definition bind {S A B} (m : M S A) (f : A -> M S B) : M S B :=
  fun s =>
    match m s with
    | (s', Ok a) => f a s'
    | (s', Raise e) => (s', Raise e)
    end.

Definition raise {S A} (e : exn) : M S A := fun s => (s, Raise e).

Definition get {S} : M S S := fun s => (s, Ok s).

Definition modify {S} (f : S -> S) : M S unit := fun s => (f s, Ok tt).

(** A pure computation that may raise. *)
Definition lift {S A} (r : result A) : M S A := fun s => (s, r).

(** [try: body / except <caught>: handler]. *)
Definition try_except {S A} (body : M S A) (caught : exn -> bool)
    (handler : M S A) : M S A :=
  fun s =>
    match body s with
    | (s', Ok a) => (s', Ok a)
    | (s', Raise e) => if caught e then handler s' else (s', Raise e)
    end.

Declare Scope py_scope.
Delimit Scope py_scope with py.
Notation "x <- m ;; k" := (bind m (fun x => k))
  (at level 61, m at next level, right associativity) : py_scope.
Notation "m ;; k" := (bind m (fun _ => k))
  (at level 61, right associativity) : py_scope.
Local Open Scope py_scope.

(** [for x in xs: body]. *)
Fixpoint for_each {S X} (xs : list X) (body : X -> M S unit) : M S unit :=
  match xs with
  | [] => ret tt
  | x :: xs' => body x ;; for_each xs' body
  end.

(** A loop that updates local variables [a] on each iteration. *)
Fixpoint for_fold {S X A} (xs : list X) (a : A) (body : A -> X -> M S A) : M S A :=
  match xs with
  | [] => ret a
  | x :: xs' => a' <- body a x ;; for_fold xs' a' body
  end.

(** A list comprehension [[f x for x in xs]]: stops at the first raise. *)
Fixpoint comprehension {X A} (f : X -> result A) (xs : list X) : result (list A) :=
  match xs with
  | [] => Ok []
  | x :: xs' =>
      match f x with
      | Raise e => Raise e
      | Ok a =>
          match comprehension f xs' with
          | Raise e => Raise e
          | Ok l => Ok (a :: l)
          end
      end
  end.

(** [l[i]] for [i >= 0]. *)
Definition subscript {A} (l : list A) (i : nat) : result A :=
  match nth_error l i with
  | Some a => Ok a
  | None => Raise IndexError
  end.

(** ** Data model *)

(** Modelled from the spec: the [Frame] value type of the core module,
    an integer frame index. *)
Definition Frame := Z.

(** Modelled from the spec: [Frame(n)] of the core module for an [int];
    a frame index is non-negative, and building one from a negative integer
    raises [ValueError], the exception the importers catch. *)
Definition Frame_of_int (n : Z) : result Frame :=
  if n <? 0 then Raise ValueError else Ok n.

(** Modelled from the spec: [Frame] built from a piece of text, as the
    QP importer does with a regex group: the decimal integer it holds. *)
Definition Frame_of_str (s : text) : result Frame :=
  match int_of_str s with
  | Ok n => Frame_of_int n
  | Raise e => Raise e
  end.

(** Modelled from the spec: the display form of a [Frame]. *)
Definition str_of_Frame (f : Frame) : text := str_of_int f.

(** Modelled from the spec: [Scene] of the models module, a labelled frame
    range whose end may be absent. *)
Record Scene : Type := mkScene {
  scene_start : Frame;
  scene_end : option Frame;
  scene_label : text
}.

(** The end of the range: the start itself for a single-frame scene. *)
Definition scene_last (sc : Scene) : Frame :=
  match scene_end sc with
  | Some e => e
  | None => scene_start sc
  end.

(** The (start, end) pair a scene is identified by; the label is not part
    of it. *)
Definition scene_range (sc : Scene) : Frame * Frame :=
  (scene_start sc, scene_last sc).

Definition range_eqb (a b : Frame * Frame) : bool :=
  (fst a =? fst b) && (snd a =? snd b).

(** Modelled from the spec: [SceningList] of the models module, the scenes
    in insertion order together with the last valid frame of the output
    that owns the list. *)
Record SceningList : Type := mkSceningList {
  list_name : text;
  max_frame : Frame;
  items : list Scene
}.

Definition in_bounds (l : SceningList) (f : Frame) : bool :=
  (0 <=? f) && (f <=? max_frame l).

Definition lookup_scene (l : SceningList) (r : Frame * Frame) : option Scene :=
  List.find (fun sc => range_eqb (scene_range sc) r) (items l).

(** Modelled from the spec: [SceningList.add(start, end=None, label='')].
    It raises when [start] or [end] lies outside [0, max_frame] or when
    [end < start] (the error the importers catch as [ValueError]) and
    leaves the list as it is; otherwise the scene is inserted unless one
    with the same range is there, and the scene of the list is returned. *)
Definition SceningList_add (l : SceningList) (start : Frame) (end_ : option Frame)
    (label : text) : SceningList * result Scene :=
  let sc := mkScene start end_ label in
  if in_bounds l start && in_bounds l (scene_last sc) && (start <=? scene_last sc)
  then match lookup_scene l (scene_range sc) with
       | Some old => (l, Ok old)
       | None => (mkSceningList (list_name l) (max_frame l) (items l ++ [sc]), Ok sc)
       end
  else (l, Raise ValueError).

(** ** The importers

    An importer is called as [import_func(path, scening_list,
    out_of_range_count)].  The list is an object shared with the caller;
    the counter is an [int] bound to a parameter, so the callee's
    [out_of_range_count += 1] rebinds the callee's own variable.  The
    messages of [logging.warning] are collected in [log]. *)
Record import_state : Type := mkImportState {
  scening_list : SceningList;
  out_of_range_count : Z;
  log : list text
}.

Definition Importer : Type := text -> M import_state unit.

(** [scening_list.add(start, end, label)] *)
Definition add (start : Frame) (end_ : option Frame) (label : text)
    : M import_state Scene :=
  fun s =>
    let (l', r) := SceningList_add (scening_list s) start end_ label in
    (mkImportState l' (out_of_range_count s) (log s), r).

(** [out_of_range_count += 1] *)
Definition count_out_of_range : M import_state unit :=
  modify (fun s =>
    mkImportState (scening_list s) (out_of_range_count s + 1) (log s)).

(** [logging.warning(msg)] inside an importer. *)
Definition warning (msg : text) : M import_state unit :=
  modify (fun s =>
    mkImportState (scening_list s) (out_of_range_count s) (log s ++ [msg])).

(** The body of the loop of [import_simple]. *)
Definition import_simple_line (line : text) : M import_state unit :=
  try_except
    (fnumbers <- lift (comprehension int_of_str (split line)) ;;
     n0 <- lift (subscript fnumbers 0) ;;
     f0 <- lift (Frame_of_int n0) ;;
     n1 <- lift (subscript fnumbers 1) ;;
     f1 <- lift (Frame_of_int n1) ;;
     _ <- add f0 (Some f1) [] ;;
     ret tt)
    is_ValueError
    count_out_of_range.

(** [import_simple], on the text returned by [path.read_text()]. *)
Definition import_simple : Importer := fun content =>
  for_each (splitlines content) import_simple_line.

(** ** Regular expressions

    The patterns of the importers are built from literals, character
    classes, sequence, alternation, capture groups and a greedy or lazy
    repetition of one character class.  [rmatch] is a backtracking
    matcher in continuation-passing style: it tries the alternatives in
    the order of Python's [re] and returns the first one the continuation
    accepts. *)

Inductive regex : Type :=
| Eps
| Lit (c : ascii)
| Class (p : ascii -> bool)
| Seq (r1 r2 : regex)
| Alt (r1 r2 : regex)
| Star (greedy : bool) (p : ascii -> bool)
| Group (n : nat) (r : regex).

Declare Scope re_scope.
Delimit Scope re_scope with re.
Infix "@@" := Seq (at level 60, right associativity) : re_scope.
Local Open Scope re_scope.

(** The groups that took part in a match, with the text each captured. *)
Definition captures := list (nat * text).

Definition group (caps : captures) (n : nat) : option text :=
  match List.find (fun p => Nat.eqb (fst p) n) caps with
  | Some p => Some (snd p)
  | None => None
  end.

Section Matcher.
Context {R : Type}.

Fixpoint star_greedy (p : ascii -> bool) (k : text -> option R) (s : text)
    : option R :=
  match s with
  | c :: s' =>
      if p c then
        match star_greedy p k s' with
        | Some x => Some x
        | None => k s
        end
      else k s
  | [] => k s
  end.

Fixpoint star_lazy (p : ascii -> bool) (k : text -> option R) (s : text)
    : option R :=
  match k s with
  | Some x => Some x
  | None =>
      match s with
      | c :: s' => if p c then star_lazy p k s' else None
      | [] => None
      end
  end.

Fixpoint rmatch (r : regex) (s : text) (caps : captures)
    (k : text -> captures -> option R) : option R :=
  match r with
  | Eps => k s caps
  | Lit c =>
      match s with
      | c' :: s' => if Ascii.eqb c c' then k s' caps else None
      | [] => None
      end
  | Class p =>
      match s with
      | c' :: s' => if p c' then k s' caps else None
      | [] => None
      end
  | Seq r1 r2 => rmatch r1 s caps (fun s' caps' => rmatch r2 s' caps' k)
  | Alt r1 r2 =>
      match rmatch r1 s caps k with
      | Some x => Some x
      | None => rmatch r2 s caps k
      end
  | Star true p => star_greedy p (fun s' => k s' caps) s
  | Star false p => star_lazy p (fun s' => k s' caps) s
  | Group n r' =>
      rmatch r' s caps (fun s' caps' =>
        k s' ((n, firstn (List.length s - List.length s') s) :: caps'))
  end.
End Matcher.

(** What a successful match says: the pattern spans the word [w] and
    turns the captures [c] into [c']. *)
Fixpoint matches (r : regex) (w : text) (c c' : captures) : Prop :=
  match r with
  | Eps => w = [] /\ c' = c
  | Lit a => w = [a] /\ c' = c
  | Class p => exists a, w = [a] /\ p a = true /\ c' = c
  | Seq r1 r2 =>
      exists w1 w2 c1,
        w = w1 ++ w2 /\ matches r1 w1 c c1 /\ matches r2 w2 c1 c'
  | Alt r1 r2 => matches r1 w c c' \/ matches r2 w c c'
  | Star _ p => Forall (fun a => p a = true) w /\ c' = c
  | Group n r' => exists c1, matches r' w c c1 /\ c' = (n, w) :: c1
  end.

(** One match of the pattern at the head of [s]: the number of characters
    it spans and its groups. *)
Definition match_here (r : regex) (s : text) : option (nat * captures) :=
  rmatch r s [] (fun s' caps => Some ((List.length s - List.length s')%nat, caps)).

(** Left-to-right scan for non-overlapping matches; [skip] characters are
    passed over before the next attempt.  (None of the patterns below
    matches the empty string.) *)
Fixpoint scan (r : regex) (skip : nat) (s : text) : list captures :=
  match s with
  | [] =>
      match skip, match_here r [] with
      | O, Some (_, caps) => [caps]
      | _, _ => []
      end
  | _ :: s' =>
      match skip with
      | S skip' => scan r skip' s'
      | O =>
          match match_here r s with
          | Some (n, caps) => caps :: scan r (n - 1) s'
          | None => scan r 0 s'
          end
      end
  end.

(** [pattern.finditer(string, pos)]: the search starts at index [pos]. *)
Definition finditer (r : regex) (s : text) (pos : nat) : list captures :=
  scan r pos s.

(** [match[n]]: [None] when the group took no part in the match; the
    callers pass it to [int], which then raises [TypeError]. *)
Definition match_group (m : captures) (n : nat) : result text :=
  match group m n with
  | Some w => Ok w
  | None => Raise TypeError
  end.

(** [pattern.findall(string)] for a pattern with one group: the text of
    the group for each match, empty when the group took no part. *)
Definition findall (r : regex) (s : text) : list text :=
  map (fun m => match group m 1 with Some w => w | None => [] end)
      (scan r 0 s).

Fixpoint Lits (s : text) : regex :=
  match s with
  | [] => Eps
  | [c] => Lit c
  | c :: s' => Lit c @@ Lits s'
  end.

Definition Word (s : string) : regex := Lits (txt s).

(** [p+] *)
Definition Plus (p : ascii -> bool) : regex := Class p @@ Star true p.

(** [.] without DOTALL: any character but the line feed. *)
Definition dot (c : ascii) : bool := negb (Ascii.eqb c LF).

(** ** [import_qp] *)

(** [re.compile(r'(\d+)\sI|K')]: alternation binds weakest, so the
    branches are [(\d+)\sI] and [K]. *)
Definition qp_pattern : regex :=
  Alt (Group 1 (Plus isdigit) @@ Class isspace @@ Lit "I") (Lit "K").

Definition import_qp : Importer := fun content =>
  for_each (findall qp_pattern content) (fun m =>
    try_except
      (f <- lift (Frame_of_str m) ;;
       _ <- add f None [] ;;
       ret tt)
      is_ValueError
      count_out_of_range).

(** ** [import_lwi] *)

Definition AV_CODEC_ID_FIRST_AUDIO : Z := 65536.
Definition IS_KEY : Z := 1.

(** [r'Index={}.*?Codec=(\d+).*?\n.*?Key=(\d)'.format(STREAM_INDEX)] with
    [STREAM_INDEX = 0]. *)
Definition lwi_pattern : regex :=
  Word "Index=0" @@ Star false dot @@ Word "Codec=" @@ Group 1 (Plus isdigit)
  @@ Star false dot @@ Lit LF @@ Star false dot @@ Word "Key="
  @@ Group 2 (Class isdigit).

(** [re.RegexFlag.MULTILINE], whose integer value the importer passes as
    the second positional argument of [finditer], that is, as [pos]. *)
Definition MULTILINE : nat := 8.

(** The body of the loop; [frame] is the running counter and the result
    is its value after the iteration. *)
Definition lwi_step (frame : Frame) (m : captures) : M import_state Frame :=
  g1 <- lift (match_group m 1) ;;
  codec <- lift (int_of_str g1) ;;
  if AV_CODEC_ID_FIRST_AUDIO <=? codec then ret (frame + 1)
  else
    g2 <- lift (match_group m 2) ;;
    key <- lift (int_of_str g2) ;;
    if negb (key =? IS_KEY) then ret (frame + 1)
    else
      try_except (_ <- add frame None [] ;; ret tt)
                 is_ValueError count_out_of_range ;;
      ret (frame + 1).

(** The scan of [import_lwi]; the result is the final frame counter. *)
Definition lwi_scan (content : text) : M import_state Frame :=
  for_fold (finditer lwi_pattern content MULTILINE) 0 lwi_step.

Definition import_lwi : Importer := fun content =>
  _ <- lwi_scan content ;; ret tt.

(** The records the scan matches, and what they say. *)
Definition lwi_records (content : text) : list captures :=
  finditer lwi_pattern content MULTILINE.

Definition record_number (m : captures) (n : nat) : Z :=
  match group m n with
  | Some g => match int_of_str g with Ok v => v | Raise _ => 0 end
  | None => 0
  end.

Definition record_codec (m : captures) : Z := record_number m 1.
Definition record_key (m : captures) : Z := record_number m 2.

(** A record of the video stream that is a key frame. *)
Definition is_video_key (m : captures) : bool :=
  (record_codec m <? AV_CODEC_ID_FIRST_AUDIO) && (record_key m =? IS_KEY).

(** The values of the frame counter, starting from [frame], at the video
    key frames among the records. *)
Fixpoint key_frames (frame : Frame) (ms : list captures) : list Frame :=
  match ms with
  | [] => []
  | m :: ms' =>
      if is_video_key m then frame :: key_frames (frame + 1) ms'
      else key_frames (frame + 1) ms'
  end.

Definition single_frame_scene (f : Frame) : Scene := mkScene f None [].

(** ** [import_tfm] *)

(** [r'(\d+)\s\((\d+)\)'] *)
Definition tfm_frame_pattern : regex :=
  Group 1 (Plus isdigit) @@ Class isspace @@ Lit "(" @@ Group 2 (Plus isdigit)
  @@ Lit ")".

(** [r'(\d+),(\d+)\s\((\d+(?:\.\d+)%)\)'] *)
Definition tfm_group_pattern : regex :=
  Group 1 (Plus isdigit) @@ Lit "," @@ Group 2 (Plus isdigit) @@ Class isspace
  @@ Lit "("
  @@ Group 3 (Plus isdigit @@ Lit "." @@ Plus isdigit @@ Lit "%")
  @@ Lit ")".

(** The local class [TFMFrame]: a frame carrying its [mic] value.  The set
    [tfm_frames] holds at most one element per frame; it is kept in the
    order of first insertion. *)
Definition TFMFrame : Type := Frame * Z.

Definition tfm_set_add (fs : list TFMFrame) (f : TFMFrame) : list TFMFrame :=
  if existsb (fun g => fst g =? fst f) fs then fs else fs ++ [f].

(** [tfm_frames -= set(range(a, b + 1))] *)
Definition tfm_set_remove_range (fs : list TFMFrame) (a b : Z) : list TFMFrame :=
  filter (fun g => negb ((a <=? fst g) && (fst g <=? b))) fs.

Definition tfm_no_section : text :=
  txt "Scening import: TFM log doesn't contain OVR Help Information.".

Definition import_tfm : Importer := fun content =>
  let start_pos := find content (txt "OVR HELP INFORMATION") in
  if start_pos =? -1 then warning tfm_no_section
  else
    let log := slice_from content start_pos in
    tfm_frames <-
      for_fold (finditer tfm_frame_pattern log 0) [] (fun fs m =>
        g1 <- lift (match_group m 1) ;;
        n <- lift (int_of_str g1) ;;
        f <- lift (Frame_of_int n) ;;
        g2 <- lift (match_group m 2) ;;
        mic <- lift (int_of_str g2) ;;
        ret (tfm_set_add fs (f, mic))) ;;
    tfm_frames <-
      for_fold (finditer tfm_group_pattern log 0) tfm_frames (fun fs m =>
        added <-
          try_except
            (g1 <- lift (match_group m 1) ;;
             n1 <- lift (int_of_str g1) ;;
             f1 <- lift (Frame_of_int n1) ;;
             g2 <- lift (match_group m 2) ;;
             n2 <- lift (int_of_str g2) ;;
             f2 <- lift (Frame_of_int n2) ;;
             g3 <- lift (match_group m 3) ;;
             scene <- add f1 (Some f2) (g3 ++ txt " combed") ;;
             ret (Some scene))
            is_ValueError
            (count_out_of_range ;; ret None) ;;
        match added with
        | None => ret fs
        | Some scene =>
            ret (tfm_set_remove_range fs (scene_start scene) (scene_last scene))
        end) ;;
    for_each tfm_frames (fun tfm_frame =>
      try_except
        (_ <- add (fst tfm_frame) None (str_of_int (snd tfm_frame)) ;; ret tt)
        is_ValueError
        count_out_of_range).

(** ** [import_matroska_timestamps_v2] *)

(** Rounding to the nearest integer, ties to even. *)
Definition round_half_even (q : Q) : Z :=
  let f := Qfloor q in
  match Qcompare (q - inject_Z f) (1 # 2) with
  | Lt => f
  | Gt => f + 1
  | Eq => if Z.even f then f else f + 1
  end.

(** A [float]: a binary64 number, held as the rational it is exactly, an
    infinity with its sign, or a NaN.  (The sign of a zero is not kept;
    nothing the importers do with a float can tell.) *)
Inductive pyfloat : Type :=
| Finite (q : Q)
| Inf (negative : bool)
| NaN.

Definition pow2 (e : Z) : Q := Qpower (inject_Z 2) e.

(** The binary64 number nearest to [q], ties to even: 53 significant
    bits, exponents from -1022 to 1023 with gradual underflow below, and
    an infinity from [2^1024] on.  This is the rounding of [float(str)]
    and of the arithmetic on floats. *)
Definition binary64 (q : Q) : pyfloat :=
  let a := Qabs q in
  if Qeq_bool a 0 then Finite 0
  else
    let e0 := Z.log2 (Qnum a) - Z.log2 (Z.pos (Qden a)) in
    let e := if Qle_bool (pow2 e0) a then e0 else e0 - 1 in
    let ulp := pow2 (Z.max e (-1022) - 52) in
    let v := Qred (inject_Z (round_half_even (a / ulp)) * ulp) in
    if Qle_bool (pow2 1024) v then Inf (negb (Qle_bool 0 q))
    else Finite (if Qle_bool 0 q then v else Qopp v).

(** A run of digits, single underscores allowed between two digits:
    its value continuing [acc], the number of digits read, and the rest. *)
Fixpoint digit_run (acc : Z) (n : nat) (s : text) : Z * nat * text :=
  match s with
  | c :: s' =>
      if isdigit c then digit_run (10 * acc + digit_value c) (S n) s'
      else if Ascii.eqb c "_"%char then
        match n, s' with
        | S _, d :: _ => if isdigit d then digit_run acc n s' else (acc, n, s)
        | _, _ => (acc, n, s)
        end
      else (acc, n, s)
  | [] => (acc, n, [])
  end.

Definition lower (c : ascii) : ascii :=
  let n := code c in
  if ((65 <=? n) && (n <=? 90))%N then ascii_of_N (n + 32) else c.

Definition text_eqb (a b : text) : bool :=
  if list_eq_dec ascii_dec a b then true else false.

Definition pow10 (e : Z) : Q := Qpower (inject_Z 10) e.

(** The exponent part [e[+-]digits], when present. *)
Definition float_exponent (s : text) : option Z :=
  match s with
  | [] => Some 0
  | c :: r =>
      if Ascii.eqb (lower c) "e"%char then
        let '(sgn, r') :=
          match r with
          | "-"%char :: r' => (-1, r')
          | "+"%char :: r' => (1, r')
          | _ => (1, r)
          end in
        match digit_run 0 0 r' with
        | (e, S _, []) => Some (sgn * e)
        | _ => None
        end
      else None
  end.

(** The unsigned part of a float literal. *)
Definition float_magnitude (s : text) : result pyfloat :=
  let l := map lower s in
  if text_eqb l (txt "inf") || text_eqb l (txt "infinity") then Ok (Inf false)
  else if text_eqb l (txt "nan") then Ok NaN
  else
    let '(ip, n1, r1) := digit_run 0 0 s in
    let '(fp, n2, r2) :=
      match r1 with
      | "."%char :: r => digit_run ip 0 r
      | _ => (ip, O, r1)
      end in
    match (n1 + n2)%nat, float_exponent r2 with
    | S _, Some e => Ok (binary64 (inject_Z fp * pow10 (e - Z.of_nat n2)))
    | _, _ => Raise ValueError
    end.

(** [float(s)]: the literal is read exactly and rounded once. *)
Definition float_of_str (s : text) : result pyfloat :=
  let negate r :=
    match r with
    | Ok (Finite q) => Ok (Finite (Qopp q))
    | Ok (Inf _) => Ok (Inf true)
    | _ => r
    end in
  match strip s with
  | "-"%char :: r => negate (float_magnitude r)
  | "+"%char :: r => float_magnitude r
  | r => float_magnitude r
  end.

(** [a / b] on floats. *)
Definition float_div (a b : pyfloat) : result pyfloat :=
  match a, b with
  | _, Finite y =>
      if Qeq_bool y 0 then Raise ZeroDivisionError
      else
        match a with
        | Finite x => Ok (binary64 (x / y))
        | Inf s => Ok (Inf (xorb s (negb (Qle_bool 0 y))))
        | NaN => Ok NaN
        end
  | Finite _, Inf _ => Ok (Finite 0)
  | _, _ => Ok NaN
  end.

(** Modelled from the spec: the [Time] value type of the core module, a
    duration with addition and subtraction, kept in whole microseconds as
    the standard duration type does. *)
Definition Time := Z.

Definition max_microseconds : Z := 86399999999999999999.
Definition min_microseconds : Z := -86399999913600000000.

(** Modelled from the spec: [Time(milliseconds=x)], with the arithmetic of
    the standard duration type: the whole milliseconds are converted
    exactly, the fraction is multiplied by 1000 as a float, and what is
    left below a microsecond is rounded, ties to even. *)
Definition Time_of_milliseconds (x : pyfloat) : result Time :=
  match x with
  | Finite q =>
      let intpart := if Qle_bool 0 q then Qfloor q else Qceiling q in
      match binary64 ((q - inject_Z intpart) * inject_Z 1000) with
      | Finite y =>
          let us := round_half_even (inject_Z (intpart * 1000) + y) in
          if (min_microseconds <=? us) && (us <=? max_microseconds)
          then Ok us else Raise OverflowError
      | _ => Raise OverflowError
      end
  | Inf _ => Raise OverflowError
  | NaN => Raise ValueError
  end.

(** Modelled from the spec: [float(t)] for a [Time], its length in
    seconds: the quotient of the microseconds by a million, rounded
    once. *)
Definition float_of_Time (t : Time) : pyfloat :=
  binary64 (inject_Z t / inject_Z 1000000).

(** ['{:.3f}'.format(x)]: the exact value of the float, rounded to three
    decimals, ties to even. *)
Definition format_3f (x : pyfloat) : text :=
  match x with
  | Finite q =>
      let m := Z.abs (round_half_even (q * inject_Z 1000)) in
      let frac := str_of_int (m mod 1000) in
      (if Qlt_le_dec q 0 then txt "-" else [])
      ++ str_of_int (m / 1000) ++ txt "."
      ++ repeat "0"%char (3 - List.length frac) ++ frac
  | Inf s => (if s then txt "-" else []) ++ txt "inf"
  | NaN => txt "nan"
  end.

(** ['{:.3f} fps'.format(1 / float(scene_delta))] *)
Definition fps_label (delta : Time) : result text :=
  match float_div (Finite 1) (float_of_Time delta) with
  | Ok x => Ok (format_3f x ++ txt " fps")
  | Raise e => Raise e
  end.

(** [round(x, ndigits)] on a float: the exact value is rounded to
    [ndigits] decimals, ties to even, and the decimal number that results
    is rounded to the nearest float. *)
Definition float_round (x : pyfloat) (ndigits : Z) : pyfloat :=
  match x with
  | Finite q =>
      binary64 (inject_Z (round_half_even (q * pow10 ndigits)) / pow10 ndigits)
  | other => other
  end.

Definition float_abs (x : pyfloat) : pyfloat :=
  match x with
  | Finite q => Finite (Qabs q)
  | Inf _ => Inf false
  | NaN => NaN
  end.

(** [a <= b] on floats; a NaN compares false. *)
Definition float_le (a b : pyfloat) : bool :=
  match a, b with
  | Finite x, Finite y => Qle_bool x y
  | Finite _, Inf s => negb s
  | Inf s, Finite _ => s
  | Inf s, Inf t => s || negb t
  | _, _ => false
  end.

(** [abs(round(float(d), 6)) <= 0.000_001] for a [Time] [d]. *)
Definition same_delta (d : Time) : bool :=
  float_le (float_abs (float_round (float_of_Time d) 6))
           (binary64 (1 # 1000000)).

Definition too_few_timestamps : text :=
  txt "Scening import: timestamps file contains less that 2 timestamps, so there's nothing to import.".

(** The lines that [float] and [Time] accept, in order. *)
Definition read_timestamps (content : text) : M import_state (list Time) :=
  for_fold (splitlines content) [] (fun timestamps line =>
    try_except
      (x <- lift (float_of_str line) ;;
       t <- lift (Time_of_milliseconds x) ;;
       ret (timestamps ++ [t]))
      is_ValueError
      (ret timestamps)).

(** The local variables of the loop over the deltas. *)
Record run : Type := mkRun {
  scene_delta : Time;
  run_start : Frame;
  run_end : option Frame
}.

(** The part of [import_matroska_timestamps_v2] that follows the reading
    of the timestamps. *)
Definition scenes_of_timestamps (timestamps : list Time) : M import_state unit :=
  if (List.length timestamps <? 2)%nat then warning too_few_timestamps
  else
    let deltas :=
      map (fun i => nth i timestamps 0 - nth (i - 1) timestamps 0)
          (seq 1 (List.length timestamps - 1)) in
    st <-
      for_fold (seq 1 (List.length deltas - 1))
        (mkRun (nth 0 deltas 0) 0 None)
        (fun st i =>
           if same_delta (nth i deltas 0 - scene_delta st) then ret st
           else
             scene_end <- lift (Frame_of_int (Z.of_nat i - 1)) ;;
             try_except
               (label <- lift (fps_label (scene_delta st)) ;;
                _ <- add (run_start st) (Some scene_end) label ;;
                ret tt)
               is_ValueError
               count_out_of_range ;;
             scene_start <- lift (Frame_of_int (Z.of_nat i)) ;;
             ret (mkRun (nth i deltas 0) scene_start None)) ;;
    match run_end st with
    | None =>
        try_except
          (last <- lift (Frame_of_int (Z.of_nat (List.length timestamps) - 1)) ;;
           label <- lift (fps_label (scene_delta st)) ;;
           _ <- add (run_start st) (Some last) label ;;
           ret tt)
          is_ValueError
          count_out_of_range
    | Some _ => ret tt
    end.

Definition import_matroska_timestamps_v2 : Importer := fun content =>
  timestamps <- read_timestamps content ;;
  scenes_of_timestamps timestamps.

(** ** The export template

    [str.format] called with the keyword arguments [start], [end] and
    [label].  As in the interpreter, the template is cut into literal
    characters and replacement fields from left to right ([markup]), and
    the pieces are rendered in that order ([render]), so that the first
    problem met is the one reported.  The model covers literal text, the
    escapes [{{] and [}}] and replacement fields that hold a plain name; a
    field that asks for an attribute, an index, a conversion or a format
    specification (one of [. [ ! :] inside the braces) is [Unsupported],
    and [format] then answers [None]. *)

Inductive format_mode : Type :=
| InText
| AfterOpen
| AfterClose
| InField (name : text).

Inductive item : Type :=
| Literal (c : ascii)
| Field (name : text)
| Malformed
| Unsupported.

Definition is_field_operator (c : ascii) : bool :=
  Ascii.eqb c "."%char || Ascii.eqb c "["%char || Ascii.eqb c "!"%char
  || Ascii.eqb c ":"%char.

(** The pieces of a template.  A stray brace, a brace inside a field name
    or a field left open ends the list with [Malformed]. *)
Fixpoint markup (mode : format_mode) (s : text) : list item :=
  match s with
  | [] =>
      match mode with
      | InText => []
      | _ => [Malformed]
      end
  | c :: s' =>
      match mode with
      | InText =>
          if Ascii.eqb c "{"%char then markup AfterOpen s'
          else if Ascii.eqb c "}"%char then markup AfterClose s'
          else Literal c :: markup InText s'
      | AfterClose =>
          if Ascii.eqb c "}"%char then Literal c :: markup InText s'
          else [Malformed]
      | AfterOpen =>
          if Ascii.eqb c "{"%char then Literal c :: markup InText s'
          else if Ascii.eqb c "}"%char then Field [] :: markup InText s'
          else if is_field_operator c then [Unsupported]
          else markup (InField [c]) s'
      | InField name =>
          if Ascii.eqb c "}"%char then Field name :: markup InText s'
          else if Ascii.eqb c "{"%char then [Malformed]
          else if is_field_operator c then [Unsupported]
          else markup (InField (name ++ [c])) s'
      end
  end.

Definition kwargs := list (text * text).

Fixpoint kwargs_get (kw : kwargs) (name : text) : option text :=
  match kw with
  | [] => None
  | (k, v) :: kw' => if text_eqb k name then Some v else kwargs_get kw' name
  end.

(** The largest index a replacement field may name. *)
Definition PY_SSIZE_T_MAX : Z := 9223372036854775807.

(** A field whose name is empty or a decimal number asks for a positional
    argument. *)
Definition is_positional (name : text) : bool :=
  is_nil name || forallb isdigit name.

(** The value a replacement field named [name] stands for; no positional
    argument is passed, so asking for one raises. *)
Definition field_value (kw : kwargs) (name : text) : result text :=
  if is_positional name then
    match name, int_digits false 0 name with
    | _ :: _, Some n =>
        if n <=? PY_SSIZE_T_MAX then Raise IndexError else Raise ValueError
    | _, _ => Raise IndexError
    end
  else
    match kwargs_get kw name with
    | Some v => Ok v
    | None => Raise (KeyError name)
    end.

Fixpoint render (kw : kwargs) (its : list item) : option (result text) :=
  match its with
  | [] => Some (Ok [])
  | Literal c :: its' =>
      match render kw its' with
      | Some (Ok s) => Some (Ok (c :: s))
      | other => other
      end
  | Field name :: its' =>
      match field_value kw name with
      | Raise e => Some (Raise e)
      | Ok v =>
          match render kw its' with
          | Some (Ok s) => Some (Ok (v ++ s))
          | other => other
          end
      end
  | Malformed :: _ => Some (Raise ValueError)
  | Unsupported :: _ => None
  end.

(** [template.format(start=scene.start, end=scene.end, label=scene.label)];
    an absent end is shown as the start. *)
Definition scene_kwargs (sc : Scene) : kwargs :=
  [(txt "start", str_of_Frame (scene_start sc));
   (txt "end", str_of_Frame (scene_last sc));
   (txt "label", scene_label sc)].

Definition format (template : text) (sc : Scene) : option (result text) :=
  render (scene_kwargs sc) (markup InText template).

(** ** The toolbar *)

(** The objects the toolbar's methods read and write: the scening lists
    of the current output and its last valid frame, the widgets' contents,
    the main window's clipboard and messages, and the log. *)
Record toolbar : Type := mkToolbar {
  current_lists : list SceningList;
  end_frame : Frame;
  current_list_index : Z;
  first_frame : option Frame;
  second_frame : option Frame;
  toggle_first_frame_button : bool;
  toggle_second_frame_button : bool;
  add_to_list_button : bool;
  label_lineedit : text;
  export_template_lineedit : text;
  status_label : text;
  clipboard : text;
  messages : list text;
  warnings : list text
}.

Definition with_lists (ls : list SceningList) (tb : toolbar) : toolbar :=
  mkToolbar ls (end_frame tb) (current_list_index tb) (first_frame tb)
    (second_frame tb) (toggle_first_frame_button tb)
    (toggle_second_frame_button tb) (add_to_list_button tb) (label_lineedit tb)
    (export_template_lineedit tb) (status_label tb) (clipboard tb) (messages tb)
    (warnings tb).

Definition with_index (i : Z) (tb : toolbar) : toolbar :=
  mkToolbar (current_lists tb) (end_frame tb) i (first_frame tb)
    (second_frame tb) (toggle_first_frame_button tb)
    (toggle_second_frame_button tb) (add_to_list_button tb) (label_lineedit tb)
    (export_template_lineedit tb) (status_label tb) (clipboard tb) (messages tb)
    (warnings tb).

Definition with_first_frame (f : option Frame) (tb : toolbar) : toolbar :=
  mkToolbar (current_lists tb) (end_frame tb) (current_list_index tb) f
    (second_frame tb) (toggle_first_frame_button tb)
    (toggle_second_frame_button tb) (add_to_list_button tb) (label_lineedit tb)
    (export_template_lineedit tb) (status_label tb) (clipboard tb) (messages tb)
    (warnings tb).

Definition with_second_frame (f : option Frame) (tb : toolbar) : toolbar :=
  mkToolbar (current_lists tb) (end_frame tb) (current_list_index tb)
    (first_frame tb) f (toggle_first_frame_button tb)
    (toggle_second_frame_button tb) (add_to_list_button tb) (label_lineedit tb)
    (export_template_lineedit tb) (status_label tb) (clipboard tb) (messages tb)
    (warnings tb).

Definition with_first_checked (b : bool) (tb : toolbar) : toolbar :=
  mkToolbar (current_lists tb) (end_frame tb) (current_list_index tb)
    (first_frame tb) (second_frame tb) b (toggle_second_frame_button tb)
    (add_to_list_button tb) (label_lineedit tb) (export_template_lineedit tb)
    (status_label tb) (clipboard tb) (messages tb) (warnings tb).

Definition with_second_checked (b : bool) (tb : toolbar) : toolbar :=
  mkToolbar (current_lists tb) (end_frame tb) (current_list_index tb)
    (first_frame tb) (second_frame tb) (toggle_first_frame_button tb) b
    (add_to_list_button tb) (label_lineedit tb) (export_template_lineedit tb)
    (status_label tb) (clipboard tb) (messages tb) (warnings tb).

Definition with_add_enabled (b : bool) (tb : toolbar) : toolbar :=
  mkToolbar (current_lists tb) (end_frame tb) (current_list_index tb)
    (first_frame tb) (second_frame tb) (toggle_first_frame_button tb)
    (toggle_second_frame_button tb) b (label_lineedit tb)
    (export_template_lineedit tb) (status_label tb) (clipboard tb) (messages tb)
    (warnings tb).

Definition with_label (s : text) (tb : toolbar) : toolbar :=
  mkToolbar (current_lists tb) (end_frame tb) (current_list_index tb)
    (first_frame tb) (second_frame tb) (toggle_first_frame_button tb)
    (toggle_second_frame_button tb) (add_to_list_button tb) s
    (export_template_lineedit tb) (status_label tb) (clipboard tb) (messages tb)
    (warnings tb).

Definition with_template (s : text) (tb : toolbar) : toolbar :=
  mkToolbar (current_lists tb) (end_frame tb) (current_list_index tb)
    (first_frame tb) (second_frame tb) (toggle_first_frame_button tb)
    (toggle_second_frame_button tb) (add_to_list_button tb) (label_lineedit tb)
    s (status_label tb) (clipboard tb) (messages tb) (warnings tb).

Definition with_status (s : text) (tb : toolbar) : toolbar :=
  mkToolbar (current_lists tb) (end_frame tb) (current_list_index tb)
    (first_frame tb) (second_frame tb) (toggle_first_frame_button tb)
    (toggle_second_frame_button tb) (add_to_list_button tb) (label_lineedit tb)
    (export_template_lineedit tb) s (clipboard tb) (messages tb) (warnings tb).

(** [self.main.clipboard.setText(s)] *)
Definition clipboard_setText (s : text) (tb : toolbar) : toolbar :=
  mkToolbar (current_lists tb) (end_frame tb) (current_list_index tb)
    (first_frame tb) (second_frame tb) (toggle_first_frame_button tb)
    (toggle_second_frame_button tb) (add_to_list_button tb) (label_lineedit tb)
    (export_template_lineedit tb) (status_label tb) s (messages tb) (warnings tb).

(** [self.main.show_message(s)] *)
Definition show_message (s : text) (tb : toolbar) : toolbar :=
  mkToolbar (current_lists tb) (end_frame tb) (current_list_index tb)
    (first_frame tb) (second_frame tb) (toggle_first_frame_button tb)
    (toggle_second_frame_button tb) (add_to_list_button tb) (label_lineedit tb)
    (export_template_lineedit tb) (status_label tb) (clipboard tb)
    (messages tb ++ [s]) (warnings tb).

(** [logging.warning(s)] *)
Definition logging_warning (s : text) (tb : toolbar) : toolbar :=
  mkToolbar (current_lists tb) (end_frame tb) (current_list_index tb)
    (first_frame tb) (second_frame tb) (toggle_first_frame_button tb)
    (toggle_second_frame_button tb) (add_to_list_button tb) (label_lineedit tb)
    (export_template_lineedit tb) (status_label tb) (clipboard tb) (messages tb)
    (warnings tb ++ [s]).

Definition with_warnings (w : list text) (tb : toolbar) : toolbar :=
  mkToolbar (current_lists tb) (end_frame tb) (current_list_index tb)
    (first_frame tb) (second_frame tb) (toggle_first_frame_button tb)
    (toggle_second_frame_button tb) (add_to_list_button tb) (label_lineedit tb)
    (export_template_lineedit tb) (status_label tb) (clipboard tb) (messages tb)
    w.

(** The property [current_list]: the value selected in the combo box,
    [None] when nothing is selected. *)
Definition current_list (tb : toolbar) : option SceningList :=
  if current_list_index tb <? 0 then None
  else nth_error (current_lists tb) (Z.to_nat (current_list_index tb)).

(** ** Export *)

(** The loop shared by the two exports: [export_str += template.format(...)
    + suffix] for each scene. *)
Fixpoint export_loop (template suffix : text) (scenes : list Scene)
    (export_str : text) : option (result text) :=
  match scenes with
  | [] => Some (Ok export_str)
  | scene :: scenes' =>
      match format template scene with
      | Some (Ok s) => export_loop template suffix scenes' (export_str ++ s ++ suffix)
      | other => other
      end
  end.

Definition invalid_placeholders_warning : text :=
  txt "Scening: export template contains invalid placeholders.".
Definition invalid_placeholders_message : text :=
  txt "Export template contains invalid placeholders.".
Definition exported_message : text :=
  txt "Scening data exported to the clipboard".

Definition export_finish (rendered : option (result text)) (tb : toolbar)
    : option (toolbar * result unit) :=
  match rendered with
  | None => None
  | Some (Ok export_str) =>
      Some (show_message exported_message (clipboard_setText export_str tb), Ok tt)
  | Some (Raise e) =>
      if is_KeyError e then
        Some (show_message invalid_placeholders_message
                (logging_warning invalid_placeholders_warning tb), Ok tt)
      else Some (tb, Raise e)
  end.

(** [export_multiline]; [None] when the template is outside the model of
    [str.format]. *)
Definition export_multiline (tb : toolbar) : option (toolbar * result unit) :=
  match current_list tb with
  | None => Some (tb, Ok tt)
  | Some l =>
      export_finish
        (export_loop (export_template_lineedit tb) [LF] (items l) []) tb
  end.

(** [export_single_line] *)
Definition export_single_line (tb : toolbar) : option (toolbar * result unit) :=
  match current_list tb with
  | None => Some (tb, Ok tt)
  | Some l =>
      export_finish
        (export_loop (export_template_lineedit tb) [] (items l) []) tb
  end.

(** ** Import *)

(** A file on disk: the parts of [pathlib.Path] the toolbar uses. *)
Record Path : Type := mkPath {
  stem : text;
  name : text;
  read_text : text
}.

(** Modelled from the spec: [SceningLists.add(name)] of the models module
    creates an empty list for the current output and returns it with its
    index. *)
Definition SceningLists_add (list_name : text) (tb : toolbar)
    : SceningList * nat * toolbar :=
  let l := mkSceningList list_name (end_frame tb) [] in
  (l, List.length (current_lists tb), with_lists (current_lists tb ++ [l]) tb).

(** Modelled from the spec: [SceningLists.remove(index)]. *)
Definition SceningLists_remove (i : nat) (tb : toolbar) : toolbar :=
  with_lists (firstn i (current_lists tb) ++ skipn (S i) (current_lists tb)) tb.

(** The list object at [i] after it was mutated in place to [l]. *)
Definition store_list (i : nat) (l : SceningList) (tb : toolbar) : toolbar :=
  with_lists (firstn i (current_lists tb) ++ l :: skipn (S i) (current_lists tb)) tb.

(** The setter of [current_list_index]. *)
Definition set_current_list_index (index : Z) (tb : toolbar)
    : toolbar * result unit :=
  if negb ((0 <=? index) && (index <? Z.of_nat (List.length (current_lists tb))))
  then (tb, Raise IndexError)
  else (with_index index tb, Ok tt).

Definition dropped_warning (n : Z) : text :=
  txt "Scening import: " ++ str_of_int n
  ++ txt " scenes were out of range of output, so they were dropped.".

Definition nothing_imported_warning (p : Path) : text :=
  txt "Scening import: nothing was imported from '" ++ name p ++ txt "'.".

(** [import_file].  [import_func] receives the value of the local
    [out_of_range_count]; what the callee does to its own parameter is not
    seen here, so the tests below read the caller's variable. *)
Definition import_file (import_func : Importer) (path : Path) (tb : toolbar)
    : toolbar * result unit :=
  let out_of_range_count := 0 in
  let '(new_list, scening_list_index, tb) := SceningLists_add (stem path) tb in
  let '(st, r) :=
    import_func (read_text path)
      (mkImportState new_list out_of_range_count (warnings tb)) in
  let tb :=
    with_warnings (log st) (store_list scening_list_index (scening_list st) tb) in
  match r with
  | Raise e => (tb, Raise e)
  | Ok _ =>
      let tb :=
        if 0 <? out_of_range_count
        then logging_warning (dropped_warning out_of_range_count) tb
        else tb in
      if (List.length (items (scening_list st)) =? 0)%nat then
        (SceningLists_remove scening_list_index
           (logging_warning (nothing_imported_warning path) tb), Ok tt)
      else set_current_list_index (Z.of_nat scening_list_index) tb
  end.

(** ** Restoring the persisted state *)

(** The values a persisted mapping may hold.  [PySettings] is a
    [SceningSettings] object; what it holds belongs to the settings
    module. *)
Inductive pyobject : Type :=
| PyNone
| PyFrame (f : Frame)
| PyStr (s : text)
| PyInt (n : Z)
| PyBool (b : bool)
| PySettings.

Definition Mapping := list (text * pyobject).

(** [state[key]] *)
Fixpoint getitem (state : Mapping) (key : text) : result pyobject :=
  match state with
  | [] => Raise (KeyError key)
  | (k, v) :: state' => if text_eqb k key then Ok v else getitem state' key
  end.

(** [scening_update_status_label] *)
Definition scening_update_status_label (tb : toolbar) : toolbar :=
  let show f := match f with Some n => str_of_Frame n | None => [] end in
  with_status (txt "Scening: " ++ show (first_frame tb) ++ txt " - "
               ++ show (second_frame tb) ++ txt " ") tb.

Definition is_some {A} (o : option A) : bool :=
  match o with Some _ => true | None => false end.

(** [check_add_to_list_possibility] *)
Definition check_add_to_list_possibility (tb : toolbar) : toolbar :=
  with_add_enabled
    (negb (current_list_index tb =? -1)
     && (is_some (first_frame tb) || is_some (second_frame tb))) tb.

Definition frame1_warning : text :=
  txt "Storage loading: Scening: failed to parse Frame 1.".
Definition frame2_warning : text :=
  txt "Storage loading: Scening: failed to parse Frame 2.".

(** The value of a frame entry: [None] or a [Frame], anything else raises
    [TypeError]. *)
Definition frame_entry (v : pyobject) : result (option Frame) :=
  match v with
  | PyNone => Ok None
  | PyFrame f => Ok (Some f)
  | _ => Raise TypeError
  end.

Definition storage_warning (key : text) : text :=
  txt "Storage loading: failed to parse " ++ key ++ txt ".".

(** [isinstance(v, str)] and [isinstance(v, SceningSettings)], with what
    the value holds when the test succeeds. *)
Definition as_str (v : pyobject) : option text :=
  match v with
  | PyStr s => Some s
  | _ => None
  end.

Definition as_SceningSettings (v : pyobject) : option unit :=
  match v with
  | PySettings => Some tt
  | _ => None
  end.

(** Modelled from the spec: [try_load(state, key, expected_type, receiver)]
    of the core module: the entry is handed to [receiver] when it is there
    and is of the expected type; otherwise a warning is logged, the
    receiver is left alone and the restore goes on. *)
Definition try_load {A} (state : Mapping) (key : text)
    (expected_type : pyobject -> option A)
    (receiver : A -> toolbar -> toolbar) : M toolbar unit :=
  match getitem state key with
  | Ok v =>
      match expected_type v with
      | Some a => modify (receiver a)
      | None => modify (logging_warning (storage_warning key))
      end
  | Raise _ => modify (logging_warning (storage_warning key))
  end.

(** [self.settings] as a receiver: the settings object takes the loaded
    settings over.  It holds nothing that is part of [toolbar]. *)
Definition settings_receiver (_ : unit) (tb : toolbar) : toolbar := tb.

(** The first [try] block of [__setstate__]. *)
Definition restore_first_frame (state : Mapping) : M toolbar unit :=
  try_except
    (v <- lift (getitem state (txt "first_frame")) ;;
     first_frame <- lift (frame_entry v) ;;
     modify (with_first_frame first_frame))
    is_KeyError_or_TypeError
    (modify (logging_warning frame1_warning)).

(** The second [try] block of [__setstate__]. *)
Definition restore_second_frame (state : Mapping) : M toolbar unit :=
  try_except
    (v <- lift (getitem state (txt "second_frame")) ;;
     second_frame <- lift (frame_entry v) ;;
     modify (with_second_frame second_frame))
    is_KeyError_or_TypeError
    (modify (logging_warning frame2_warning)).

(** [__setstate__].  (The slot that [setText] of the export template
    triggers only enables and disables buttons that are not part of
    [toolbar].) *)
Definition setstate (state : Mapping) : M toolbar unit :=
  restore_first_frame state ;;
  tb <- get ;;
  (if is_some (first_frame tb) then modify (with_first_checked true) else ret tt) ;;
  restore_second_frame state ;;
  tb <- get ;;
  (if is_some (second_frame tb) then modify (with_second_checked true) else ret tt) ;;
  modify scening_update_status_label ;;
  modify check_add_to_list_possibility ;;
  try_load state (txt "label") as_str with_label ;;
  try_load state (txt "scening_export_template") as_str with_template ;;
  try_load state (txt "settings") as_SceningSettings settings_receiver.

(** A frame entry that [__setstate__] accepts: present, and [None] or a
    [Frame]. *)
Definition valid_frame_entry (state : Mapping) (key : text) : bool :=
  match getitem state key with
  | Ok PyNone | Ok (PyFrame _) => true
  | _ => false
  end.

(** ** The placeholders of a template *)

Definition recognized (name : text) : bool :=
  text_eqb name (txt "start") || text_eqb name (txt "end")
  || text_eqb name (txt "label").

(** Literal text or a placeholder that holds a name. *)
Definition plain_item (it : item) : bool :=
  match it with
  | Literal _ => true
  | Field name => negb (is_positional name)
  | _ => false
  end.

Definition unrecognized_item (it : item) : bool :=
  match it with
  | Field name => negb (is_positional name) && negb (recognized name)
  | _ => false
  end.

(** A template of text and named placeholders, one of which is none of
    [{start}], [{end}], [{label}]. *)
Definition references_unrecognized_placeholder (template : text) : bool :=
  forallb plain_item (markup InText template)
  && existsb unrecognized_item (markup InText template).

(** What the exports leave behind when the template is refused. *)
Definition template_error (tb : toolbar) : toolbar :=
  show_message invalid_placeholders_message
    (logging_warning invalid_placeholders_warning tb).

(** ** Vocabulary of the statements *)

(** [sub in s] *)
Definition contains (s sub : text) : Prop :=
  exists pre post, s = pre ++ sub ++ post.

(** The state an importer starts from when [import_file] calls it on an
    output whose last frame is [n]. *)
Definition fresh_list (n : Frame) : SceningList := mkSceningList (txt "list") n [].
Definition fresh (n : Frame) : import_state := mkImportState (fresh_list n) 0 [].

(** A toolbar as [__init__] leaves it, on an output whose last frame is
    [n], holding the lists [ls] with the one at [i] selected. *)
Definition toolbar_with (n : Frame) (ls : list SceningList) (i : Z)
    (template : text) : toolbar :=
  mkToolbar ls n i None None false false false [] template
    (txt "Scening:  -  ") [] [] [].

(** The lines of a text file. *)
Fixpoint lines (ls : list string) : text :=
  match ls with
  | [] => []
  | l :: ls' => txt l ++ LF :: lines ls'
  end.

(** A persisted mapping with a wrongly-typed first frame and no second
    frame. *)
Definition damaged_state : Mapping :=
  [(txt "first_frame", PyStr (txt "12"));
   (txt "label", PyStr (txt "intro"));
   (txt "scening_export_template", PyStr (txt "{start} {end}"))].

(** A toolbar whose selected list holds the scenes 3-7 and 12, on an
    output that ends at frame 100; the clipboard holds [old]. *)
Definition exporting (template old : text) : toolbar :=
  clipboard_setText old
    (toolbar_with 100
       [mkSceningList (txt "list") 100
          [mkScene 3 (Some 7) (txt "op"); mkScene 12 None []]] 0 template).

(** The invariant of a scening list that is built by [add] alone: every
    scene lies within the frames of the output, with its start not after
    its end, and no two scenes have the same range. *)
Definition valid_scene (n : Frame) (sc : Scene) : bool :=
  (0 <=? scene_start sc) && (scene_start sc <=? scene_last sc)
  && (scene_last sc <=? n).

Fixpoint distinct_ranges (rs : list (Frame * Frame)) : bool :=
  match rs with
  | [] => true
  | r :: rs' => negb (existsb (range_eqb r) rs') && distinct_ranges rs'
  end.

Definition valid_list (l : SceningList) : bool :=
  forallb (valid_scene (max_frame l)) (items l)
  && distinct_ranges (map scene_range (items l)).

(** The line the template [{start} {end}] gives for a scene, and the
    scene that the simple importer makes of it. *)
Definition simple_line (sc : Scene) : text :=
  str_of_Frame (scene_start sc) ++ txt " " ++ str_of_Frame (scene_last sc).

Definition unlabelled (sc : Scene) : Scene :=
  mkScene (scene_start sc) (Some (scene_last sc)) [].

(** The (start, end) pairs obtained by exporting the selected list with
    [export_multiline] and reading the clipboard back with
    [import_simple] into a new list of the same output. *)
Definition reimported (tb : toolbar) : list (Frame * Frame) :=
  match export_multiline tb with
  | Some (tb', Ok _) =>
      map scene_range
        (items (scening_list
                  (fst (import_simple (clipboard tb') (fresh (end_frame tb))))))
  | _ => []
  end.


(** * Further parts of the toolbar *)

(** ** [import_xvid] *)

(** [enumerate(xs)], counting from [k]. *)
Fixpoint enumerate_from {A} (k : Z) (xs : list A) : list (Z * A) :=
  match xs with
  | [] => []
  | x :: xs' => (k, x) :: enumerate_from (k + 1) xs'
  end.

Definition enumerate {A} (xs : list A) : list (Z * A) := enumerate_from 0 xs.

(** The body of the loop of [import_xvid]. *)
Definition import_xvid_line (p : Z * text) : M import_state unit :=
  let (i, line) := p in
  if negb (startswith line (txt "i")) then ret tt
  else
    try_except
      (f <- lift (Frame_of_int (i - 3)) ;;
       _ <- add f None [] ;;
       ret tt)
      is_ValueError
      count_out_of_range.

Definition import_xvid : Importer := fun content =>
  for_each (enumerate (splitlines content)) import_xvid_line.

(** The frame numbers the XviD log gives: the index, less three, of each
    line that starts with the letter i. *)
Definition xvid_frames (content : text) : list Frame :=
  map (fun p => fst p - 3)
      (filter (fun p => startswith (snd p) (txt "i"))
         (enumerate (splitlines content))).

(** ** The rest of the toolbar *)

Definition is_IndexError (e : exn) : bool :=
  match e with IndexError => true | _ => false end.

(** [switch_list] *)
Definition switch_list (index : Z) : M toolbar unit :=
  try_except (set_current_list_index index) is_IndexError (ret tt).

(** [on_add_list_clicked].  The name [SceningLists.add()] gives a list
    when none is passed is decided outside this module; it is the
    parameter [default_name]. *)
Definition on_add_list_clicked (default_name : text) : M toolbar unit :=
  fun tb =>
    let '(_, i, tb) := SceningLists_add default_name tb in
    set_current_list_index (Z.of_nat i) tb.

Definition pyobject_of_frame (f : option Frame) : pyobject :=
  match f with
  | Some n => PyFrame n
  | None => PyNone
  end.

(** [__getstate__] *)
Definition getstate (tb : toolbar) : Mapping :=
  [(txt "first_frame", pyobject_of_frame (first_frame tb));
   (txt "second_frame", pyobject_of_frame (second_frame tb));
   (txt "label", PyStr (label_lineedit tb));
   (txt "scening_export_template", PyStr (export_template_lineedit tb))].

(** The text [scening_update_status_label] shows for two frames. *)
Definition status_text (first second : option Frame) : text :=
  let show f := match f with Some n => str_of_Frame n | None => [] end in
  txt "Scening: " ++ show first ++ txt " - " ++ show second ++ txt " ".

(** ** The gate of the export buttons *)

(** [pattern.fullmatch(string)] *)
Definition fullmatch (r : regex) (s : text) : option captures :=
  rmatch r s [] (fun s' caps => if is_nil s' then Some caps else None).

(** [re.compile(r'.*(?:{start}|{end}|{label}).*')]: a brace that opens no
    repetition count is a literal. *)
Definition export_template_pattern : regex :=
  Star true dot
  @@ Alt (Word "{start}") (Alt (Word "{end}") (Word "{label}"))
  @@ Star true dot.

(** The value [check_remove_export_possibility] passes to [setEnabled] of
    the two export buttons. *)
Definition export_buttons_enabled (tb : toolbar) : bool :=
  is_some (fullmatch export_template_pattern (export_template_lineedit tb)).

(** ** Vocabulary of the further statements *)

(** A template of text and of the placeholders [{start}], [{end}] and
    [{label}] only. *)
Definition recognized_item (it : item) : bool :=
  match it with
  | Literal _ => true
  | Field name => recognized name
  | _ => false
  end.

Definition recognized_template (template : text) : bool :=
  forallb recognized_item (markup InText template).

(** The text a scene is rendered to when the template can be rendered. *)
Definition rendered (template : text) (sc : Scene) : text :=
  match format template sc with
  | Some (Ok s) => s
  | _ => []
  end.

(** What an export leaves behind when it succeeds with the text [out]. *)
Definition exported (out : text) (tb : toolbar) : toolbar :=
  show_message exported_message (clipboard_setText out tb).

(** The state in which [import_file] hands a new list to an importer. *)
Definition import_start (path : Path) (tb : toolbar) : import_state :=
  mkImportState (mkSceningList (stem path) (end_frame tb) []) 0 (warnings tb).


(** A file with one line per element. *)
Definition unlines (ls : list text) : text :=
  List.concat (map (fun l => l ++ [LF]) ls).

(** A line that [import_matroska_timestamps_v2] passes over: [float] or
    [Time] raises [ValueError] on it. *)
Definition not_a_timestamp (line : text) : bool :=
  match float_of_str line with
  | Raise e => is_ValueError e
  | Ok x =>
      match Time_of_milliseconds x with
      | Raise e => is_ValueError e
      | Ok _ => false
      end
  end.

(** A computation that returns normally from every state. *)
Definition returns {S A} (m : M S A) : Prop :=
  forall s, exists s' a, m s = (s', Ok a).

(** A non-empty run of decimal digits. *)
Definition digits (w : text) : Prop :=
  Forall (fun a => isdigit a = true) w /\ w <> [].


(** The pieces that end the rendering on their own: a line feed can be
    added after a template only when none of them is met. *)
Definition complete_item (it : item) : bool :=
  match it with
  | Literal _ | Field _ => true
  | _ => false
  end.

Definition then_line_feed (its : list item) : list item :=
  if forallb complete_item its then its ++ [Literal LF] else its.

Definition result_line_feed (r : option (result text)) : option (result text) :=
  match r with
  | Some (Ok s) => Some (Ok (s ++ [LF]))
  | other => other
  end.

(** ** The limit on the digits of an integer literal *)

(** The default of [sys.get_int_max_str_digits()] in CPython 3.11. *)
Definition int_max_str_digits : nat := 4300.

(** The longest run of decimal digits in a text; [run] digits precede. *)
Fixpoint longest_digit_run_from (run : nat) (s : text) : nat :=
  match s with
  | [] => run
  | c :: s' =>
      if isdigit c then longest_digit_run_from (S run) s'
      else Nat.max run (longest_digit_run_from 0 s')
  end.

(** No run of digits in the text is too long for [int]. *)
Definition within_int_limit (s : text) : bool :=
  (longest_digit_run_from 0 s <=? int_max_str_digits)%nat.

(** ** The layout of an L-SMASH Works index

    The index is a text of lines.  A packet of the stream 0 takes two
    lines, [Index=0...Codec=<codec>...] and [Key=<key>...]; the other
    lines (the header, the packets of the other streams, the trailer) do
    not contain [Index=0]. *)

Record lwi_packet : Type := mkPacket {
  before_codec : text;
  packet_codec : text;
  after_codec : text;
  packet_key : ascii;
  after_key : text
}.

Inductive lwi_entry : Type :=
| Packet (p : lwi_packet)
| OtherLine (line : text).

(** The two lines of a packet, up to the key flag. *)
Definition packet_head (p : lwi_packet) : text :=
  txt "Index=0" ++ before_codec p ++ txt "Codec=" ++ packet_codec p
  ++ after_codec p ++ [LF] ++ txt "Key=" ++ [packet_key p].

Definition entry_text (e : lwi_entry) : text :=
  match e with
  | Packet p => packet_head p ++ after_key p ++ [LF]
  | OtherLine line => line ++ [LF]
  end.

Definition lwi_text (header : text) (entries : list lwi_entry) : text :=
  header ++ [LF] ++ List.concat (map entry_text entries).

(** A line, or the rest of one, in which no packet of the stream 0
    starts. *)
Definition plain_line (line : text) : bool :=
  forallb dot line && (find line (txt "Index=0") =? -1).

Definition starts_with_digit (s : text) : bool :=
  match s with
  | c :: _ => isdigit c
  | [] => false
  end.

(** The fields of a packet: nothing before the codec holds the letter C,
    the codec is a number that [int] accepts, no digit follows it, and the
    key flag is one digit. *)
Definition well_formed_packet (p : lwi_packet) : bool :=
  forallb (fun c => dot c && negb (Ascii.eqb c "C")) (before_codec p)
  && forallb isdigit (packet_codec p) && negb (is_nil (packet_codec p))
  && (List.length (packet_codec p) <=? int_max_str_digits)%nat
  && forallb dot (after_codec p) && negb (starts_with_digit (after_codec p))
  && isdigit (packet_key p)
  && plain_line (after_key p).

(** An index: a header line that covers the eight characters the scan
    passes over, then packets and other lines. *)
Definition well_formed_index (header : text) (entries : list lwi_entry) : bool :=
  plain_line header && (7 <=? List.length header)%nat
  && forallb (fun e => match e with
                       | Packet p => well_formed_packet p
                       | OtherLine line => plain_line line
                       end) entries.

(** The packets of the stream 0, in the order of the file. *)
Fixpoint packets (entries : list lwi_entry) : list lwi_packet :=
  match entries with
  | [] => []
  | Packet p :: entries' => p :: packets entries'
  | OtherLine _ :: entries' => packets entries'
  end.

(** A packet of a video codec with the key flag 1. *)
Definition video_key_packet (p : lwi_packet) : bool :=
  (digits_value 0 (packet_codec p) <? AV_CODEC_ID_FIRST_AUDIO)
  && Ascii.eqb (packet_key p) "1".

(** The numbers of the video key packets, when the packets of the stream
    0 are numbered from [frame] on. *)
Fixpoint packet_key_frames (frame : Frame) (ps : list lwi_packet) : list Frame :=
  match ps with
  | [] => []
  | p :: ps' =>
      if video_key_packet p then frame :: packet_key_frames (frame + 1) ps'
      else packet_key_frames (frame + 1) ps'
  end.

(** The groups of the match of a packet. *)
Definition packet_captures (p : lwi_packet) : captures :=
  [(2%nat, [packet_key p]); (1%nat, packet_codec p)].

(** An index of four packets of the stream 0: a key frame, a frame that
    is no key frame, a packet of an audio codec and another key frame;
    one packet of the stream 1 lies between them. *)
Definition lwi_header : text := txt "<LSMASHWorksIndexVersion=0.0.0.0>".

Definition lwi_entries : list lwi_entry :=
  let video := mkPacket (txt ",Type=0,") (txt "27") (txt ",TimeBase=1/1000,EDI=0") in
  let audio := mkPacket (txt ",Type=1,") (txt "86018") (txt ",TimeBase=1/1000,EDI=0") in
  [OtherLine (txt "<LibavReaderIndexFile=8>");
   Packet (video "1"%char (txt ",Pic=1,POC=0,Repeat=1,Field=0"));
   OtherLine (txt "Index=1,Type=1,Codec=86018,TimeBase=1/1000,EDI=0");
   OtherLine (txt "Length=1024");
   Packet (video "0"%char (txt ",Pic=2,POC=2,Repeat=1,Field=0"));
   Packet (audio "1"%char (txt ",Length=1024"));
   Packet (video "1"%char (txt ",Pic=1,POC=4,Repeat=1,Field=0"));
   OtherLine (txt "</LibavReaderIndex>")].

(** A TFM log with two combed frames and one group. *)
Definition tfm_log : text :=
  lines ["junk 5 (7)"; "OVR HELP INFORMATION"; "12 (40)"; "30 (55)"; "31 (56)";
         "30,35 (12.5%)"]%string.

(** * Properties

    Checks of the definitions on concrete inputs come first, then the
    lemmas on text, on the matcher and on scening lists that the proofs
    share, then the statements about the toolbar, claim by claim. *)

Local Open Scope string_scope.
Local Open Scope list_scope.
Local Open Scope Z_scope.
Local Open Scope py_scope.

(** ** Sanity checks *)

Example str_of_int_ex : str_of_int 120 = txt "120" /\ str_of_int (-7) = txt "-7"
  /\ str_of_int 0 = txt "0".
Proof. repeat split. Qed.

Example int_of_str_ex :
  int_of_str (txt " 1_000 ") = Ok 1000 /\ int_of_str (txt "5-10") = Raise ValueError
  /\ int_of_str (txt "") = Raise ValueError /\ int_of_str (txt "-12") = Ok (-12)
  /\ int_of_str (txt "1__0") = Raise ValueError /\ int_of_str (txt "007") = Ok 7.
Proof. repeat split. Qed.

Example splitlines_ex :
  splitlines (txt "a b") = [txt "a b"]
  /\ splitlines (LF :: txt "x" ++ [CR; LF] ++ txt "y" ++ [LF])
     = [[]; txt "x"; txt "y"]
  /\ split (txt "  12   7 ") = [txt "12"; txt "7"].
Proof. repeat split. Qed.

Example float_of_str_ex :
  float_of_str (txt " 1_0.25 ") = Ok (Finite (41 # 4))
  /\ float_of_str (txt "-1e3") = Ok (Finite (-1000 # 1))
  /\ float_of_str (txt ".5") = Ok (Finite (1 # 2))
  /\ float_of_str (txt "5.") = Ok (Finite (5 # 1))
  /\ float_of_str (txt ".") = Raise ValueError
  /\ float_of_str (txt "1e") = Raise ValueError
  /\ float_of_str (txt "# timestamp format v2") = Raise ValueError
  /\ float_of_str (txt "Infinity") = Ok (Inf false)
  /\ float_of_str (txt "-1e400") = Ok (Inf true)
  /\ float_of_str (txt "0.1")
     = Ok (Finite (3602879701896397 # 36028797018963968)).
Proof. vm_compute. repeat split. Qed.

Example Time_of_milliseconds_ex :
  Time_of_milliseconds (Finite (5 # 2)) = Ok 2500
  /\ Time_of_milliseconds (Finite (1 # 2000)) = Ok 0
  /\ Time_of_milliseconds (Finite (3 # 2000)) = Ok 2
  /\ Time_of_milliseconds (Inf false) = Raise OverflowError
  /\ Time_of_milliseconds NaN = Raise ValueError
  /\ fst (read_timestamps (lines ["0.5015"; "0.502"; "1e400"; "nan"]) (fresh 100))
     = fresh 100
  /\ snd (read_timestamps (lines ["0.5015"; "0.502"; "nan"]) (fresh 100))
     = Ok [501; 502]
  /\ snd (read_timestamps (lines ["0.5015"; "1e400"]) (fresh 100))
     = Raise OverflowError.
Proof. vm_compute. repeat split. Qed.

Example format_3f_ex :
  format_3f (Finite (10 # 1)) = txt "10.000"
  /\ format_3f (Finite (-1 # 16)) = txt "-0.062"
  /\ format_3f (Finite (3 # 16)) = txt "0.188"
  /\ fps_label 150000 = Ok (txt "6.667 fps")
  /\ fps_label 80000000 = Ok (txt "0.013 fps")
  /\ fps_label 0 = Raise ZeroDivisionError.
Proof. vm_compute. repeat split. Qed.

Example format_ex :
  let sc := mkScene 3 (Some 7) (txt "op") in
  format (txt "{start}-{end} {{{label}}}") sc = Some (Ok (txt "3-7 {op}"))
  /\ format (txt "{start}{foo}}") sc = Some (Raise (KeyError (txt "foo")))
  /\ format (txt "}{foo}") sc = Some (Raise ValueError)
  /\ format (txt "{}") sc = Some (Raise IndexError)
  /\ format (txt "{0}") sc = Some (Raise IndexError)
  /\ format (txt "{foo") sc = Some (Raise ValueError)
  /\ format (txt "{start:>5}") sc = None
  /\ format (txt "{end}") (mkScene 3 None []) = Some (Ok (txt "3")).
Proof. vm_compute. repeat split. Qed.

Example findall_qp_ex :
  findall qp_pattern (lines ["12 I"; "30 K"; "7 P"]) = [txt "12"; []].
Proof. vm_compute. reflexivity. Qed.

Example import_simple_ex1 :
  import_simple (lines ["3 7"; "x y"; "10 12 99"; "8 200"]) (fresh 100)
  = (mkImportState (mkSceningList (txt "list") 100
       [mkScene 3 (Some 7) []; mkScene 10 (Some 12) []]) 2 [], Ok tt).
Proof. vm_compute. reflexivity. Qed.

Example import_simple_ex2 :
  import_simple (lines ["3 7"; "5"]) (fresh 100)
  = (mkImportState (mkSceningList (txt "list") 100
       [mkScene 3 (Some 7) []]) 0 [], Raise IndexError).
Proof. vm_compute. reflexivity. Qed.

Example lwi_ex :
  lwi_scan
    (lines ["<Header>";
            "Index=0,POS=1,Codec=27"; "Key=1,Pic=1";
            "Index=1,POS=1,Codec=86018"; "Key=1,Pic=1";
            "Index=0,POS=1,Codec=86018"; "Key=1,Pic=1";
            "Index=0,POS=1,Codec=27"; "Key=0,Pic=1";
            "Index=0,POS=1,Codec=27"; "Key=1,Pic=1"]) (fresh 100)
  = (mkImportState (mkSceningList (txt "list") 100
       [mkScene 0 None []; mkScene 3 None []]) 0 [], Ok 4).
Proof. vm_compute. reflexivity. Qed.

(** The scan starts at index 8: a record that begins before it is not
    seen. *)
Example lwi_scan_from_8_ex :
  lwi_scan (lines ["Index=0,Codec=27"; "Key=1,Pic=1"]) (fresh 100)
  = (fresh 100, Ok 0)
  /\ lwi_scan (lines ["<Index>"; "Index=0,Codec=27"; "Key=1,Pic=1"]) (fresh 100)
     = (mkImportState (mkSceningList (txt "list") 100 [mkScene 0 None []]) 0 [],
        Ok 1).
Proof. vm_compute. split; reflexivity. Qed.

Example import_v2_ex :
  import_matroska_timestamps_v2
    (lines ["# timestamp format v2"; "0"; "100"; "200"; "350"; "500"]) (fresh 100)
  = (mkImportState (mkSceningList (txt "list") 100
       [mkScene 0 (Some 1) (txt "10.000 fps");
        mkScene 2 (Some 4) (txt "6.667 fps")]) 0 [], Ok tt).
Proof. vm_compute. reflexivity. Qed.

Example import_tfm_ex :
  import_tfm
    (lines ["junk 5 (7)"; "OVR HELP INFORMATION"; "12 (40)"; "30 (55)"; "31 (56)";
            "30,35 (12.5%)"]) (fresh 100)
  = (mkImportState (mkSceningList (txt "list") 100
       [mkScene 30 (Some 35) (txt "12.5% combed");
        mkScene 12 None (txt "40")]) 0 [], Ok tt).
Proof. vm_compute. reflexivity. Qed.

Example setstate_damaged_ex :
  setstate damaged_state (toolbar_with 100 [] (-1) [])
  = (mkToolbar [] 100 (-1) None None false false false (txt "intro")
       (txt "{start} {end}") (txt "Scening:  -  ") [] []
       [frame1_warning; frame2_warning; storage_warning (txt "settings")],
     Ok tt).
Proof. vm_compute. reflexivity. Qed.

Example export_start_end_ex :
  export_multiline (exporting (txt "{start} {end}") (txt "old"))
  = Some (show_message exported_message
            (clipboard_setText (lines ["3 7"; "12 12"])
               (exporting (txt "{start} {end}") (txt "old"))), Ok tt).
Proof. vm_compute. reflexivity. Qed.

(** ** Running monadic code *)

Lemma bind_run {S A B} (m : M S A) (f : A -> M S B) s s' a :
  m s = (s', Ok a) -> bind m f s = f a s'.
Proof. intros H. unfold bind. rewrite H. reflexivity. Qed.

Ltac run_step :=
  match goal with
  | |- context [bind get _ ?s] =>
      rewrite (bind_run get _ s s s eq_refl); cbv beta
  | |- context [bind (modify ?f) _ ?s] =>
      rewrite (bind_run (modify f) _ s (f s) tt eq_refl); cbv beta
  | |- context [bind (ret ?a) _ ?s] =>
      rewrite (bind_run (ret a) _ s s a eq_refl); cbv beta
  | |- context [bind (if ?b then _ else _) _ _] => destruct b eqn:?
  end.

(** ** Searching a text *)

Lemma startswith_iff s p : startswith s p = true <-> exists r, s = p ++ r.
Proof.
  revert s; induction p as [|c p IH]; intros s; simpl.
  - split; [intros _; now exists s | reflexivity].
  - destruct s as [|d s].
    + split; [discriminate | intros [r H]; discriminate].
    + rewrite andb_true_iff, Ascii.eqb_eq, IH. split.
      * intros [-> [r ->]]. now exists r.
      * intros [r H]. inversion H. split; [reflexivity | now exists r].
Qed.

Lemma find_from_absent s sub : forall i, 0 <= i ->
  (find_from i s sub = -1 <-> ~ contains s sub).
Proof.
  induction s as [|c s IH]; intros i Hi; simpl.
  - destruct (startswith [] sub) eqn:E.
    + apply startswith_iff in E. destruct E as [r E].
      split; [lia | intros H; exfalso; apply H].
      exists [], r. exact E.
    + split; [intros _ [pre [post H]] | reflexivity].
      destruct pre; [|discriminate]. simpl in H.
      assert (startswith [] sub = true) by (apply startswith_iff; now exists post).
      congruence.
  - destruct (startswith (c :: s) sub) eqn:E.
    + apply startswith_iff in E. destruct E as [r E].
      split; [lia | intros H; exfalso; apply H].
      exists [], r. exact E.
    + rewrite (IH (i + 1)) by lia. split; intros H [pre [post H']]; apply H.
      * destruct pre as [|d pre].
        -- assert (startswith (c :: s) sub = true)
             by (apply startswith_iff; now exists post).
           congruence.
        -- injection H' as _ ->. now exists pre, post.
      * exists (c :: pre), post. simpl. now rewrite H'.
Qed.

Lemma find_absent s sub : find s sub = -1 <-> ~ contains s sub.
Proof. apply find_from_absent. lia. Qed.

(** ** Decimal text *)

Lemma digit_facts (c : ascii) :
  isdigit c = true ->
  isspace c = false /\ islinebreak c = false
  /\ Ascii.eqb c "-" = false /\ Ascii.eqb c "+" = false
  /\ Ascii.eqb c "_" = false /\ 0 <= digit_value c <= 9.
Proof.
  destruct c as [[] [] [] [] [] [] [] []]; vm_compute; intros H;
    try discriminate H; repeat split; discriminate.
Qed.

Lemma lstrip_head (c : ascii) (s : text) :
  isspace c = false -> lstrip (c :: s) = c :: s.
Proof. intros H. simpl. now rewrite H. Qed.

Lemma strip_digits (w : text) :
  Forall (fun a => isdigit a = true) w -> strip w = w.
Proof.
  intros F. unfold strip.
  assert (L : forall v, Forall (fun a => isdigit a = true) v -> lstrip v = v).
  { intros v Fv. destruct Fv as [|a v Ha Fv]; [reflexivity|].
    apply lstrip_head. apply (digit_facts a Ha). }
  rewrite (L w F). rewrite L by (apply Forall_rev; exact F).
  apply rev_involutive.
Qed.

Lemma int_digits_digits (w : text) : forall prev acc,
  Forall (fun a => isdigit a = true) w -> w <> [] ->
  int_digits prev acc w = Some (digits_value acc w).
Proof.
  induction w as [|c w IH]; intros prev acc F N; [congruence|].
  inversion F as [|? ? Hc Fw]; subst. cbn [int_digits]. rewrite Hc.
  change (digits_value acc (c :: w))
    with (digits_value (10 * acc + digit_value c) w).
  destruct w as [|d w]; [reflexivity|].
  apply IH; [assumption | discriminate].
Qed.

Lemma digits_value_nonneg (w : text) : forall acc,
  Forall (fun a => isdigit a = true) w -> 0 <= acc -> 0 <= digits_value acc w.
Proof.
  induction w as [|c w IH]; intros acc F Hacc; [exact Hacc|].
  inversion F as [|? ? Hc Fw]; subst.
  change (digits_value acc (c :: w))
    with (digits_value (10 * acc + digit_value c) w).
  apply IH; [assumption|].
  pose proof (digit_facts c Hc) as [_ [_ [_ [_ [_ D]]]]]. lia.
Qed.

(** [int] of a non-empty run of digits is its value. *)
Lemma int_of_str_digits (w : text) :
  Forall (fun a => isdigit a = true) w -> w <> [] ->
  int_of_str w = Ok (digits_value 0 w) /\ 0 <= digits_value 0 w.
Proof.
  intros F N. split; [|apply digits_value_nonneg; [assumption | lia]].
  unfold int_of_str. rewrite (strip_digits w F).
  destruct w as [|c r]; [congruence|].
  inversion F as [|? ? Hc Fr]; subst.
  destruct (digit_facts c Hc) as [_ [_ [Hm [Hp _]]]]. rewrite Hm, Hp.
  rewrite (int_digits_digits (c :: r) false 0 F N).
  f_equal. lia.
Qed.

Lemma digit_char_facts (k : N) :
  (k <= 9)%N ->
  isdigit (digit_char k) = true /\ digit_value (digit_char k) = Z.of_N k.
Proof.
  intros H. unfold isdigit, digit_value, digit_char, code.
  rewrite N_ascii_embedding by lia. split; [|lia].
  apply andb_true_iff. split; apply N.leb_le; lia.
Qed.

Lemma uint_text_digits (d : Decimal.uint) :
  Forall (fun a => isdigit a = true) (uint_text d).
Proof.
  induction d; simpl; constructor; try assumption;
    apply digit_char_facts; lia.
Qed.

Lemma digits_value_cons (acc : Z) (k : N) (w : text) :
  (k <= 9)%N ->
  digits_value acc (digit_char k :: w) = digits_value (10 * acc + Z.of_N k) w.
Proof.
  intros H. unfold digits_value. cbn [fold_left].
  now rewrite (proj2 (digit_char_facts k H)).
Qed.

Lemma digits_value_acc (d : Decimal.uint) : forall acc : positive,
  digits_value (Z.pos acc) (uint_text d) = Z.pos (Pos.of_uint_acc d acc).
Proof.
  induction d; intros acc; cbn [uint_text Pos.of_uint_acc];
    [reflexivity | ..];
    (rewrite digits_value_cons by lia);
    match goal with
    | |- digits_value ?z _ = Z.pos (Pos.of_uint_acc _ ?p) =>
        replace z with (Z.pos p) by lia
    end; apply IHd.
Qed.

Lemma digits_value_uint (d : Decimal.uint) :
  digits_value 0 (uint_text d) = Z.of_N (Pos.of_uint d).
Proof.
  induction d; cbn [uint_text Pos.of_uint];
    [reflexivity | ..];
    (rewrite digits_value_cons by lia);
    try (change (10 * 0 + Z.of_N 0) with 0; exact IHd);
    match goal with
    | |- digits_value ?z _ = Z.of_N (N.pos (Pos.of_uint_acc _ ?p)) =>
        change z with (Z.pos p)
    end; apply digits_value_acc.
Qed.

Lemma str_of_Frame_digits (n : Frame) :
  0 <= n ->
  Forall (fun a => isdigit a = true) (str_of_Frame n) /\ str_of_Frame n <> [].
Proof.
  intros H. unfold str_of_Frame, str_of_int.
  replace (n <? 0) with false by (symmetry; apply Z.ltb_ge; lia).
  split; [apply uint_text_digits|].
  destruct (Z.to_N n) as [|p] eqn:E; [discriminate|].
  cbn [N.to_uint]. pose proof (DecimalPos.Unsigned.to_uint_nonnil p) as Hp.
  destruct (Pos.to_uint p); [congruence | ..]; discriminate.
Qed.

(** [int(str(n)) == n] for a frame number. *)
Lemma int_of_str_of_Frame (n : Frame) :
  0 <= n -> int_of_str (str_of_Frame n) = Ok n.
Proof.
  intros H. destruct (str_of_Frame_digits n H) as [F N].
  rewrite (proj1 (int_of_str_digits _ F N)). f_equal.
  unfold str_of_Frame, str_of_int.
  replace (n <? 0) with false by (symmetry; apply Z.ltb_ge; lia).
  rewrite digits_value_uint.
  change (Pos.of_uint (N.to_uint (Z.to_N n))) with (N.of_uint (N.to_uint (Z.to_N n))).
  rewrite DecimalN.Unsigned.of_to. lia.
Qed.

(** ** Lines and fields *)

Lemma linebreak_facts (c : ascii) :
  islinebreak c = false -> Ascii.eqb c CR = false.
Proof.
  destruct c as [[] [] [] [] [] [] [] []]; vm_compute; intros H;
    try discriminate H; reflexivity.
Qed.

Lemma space_facts : isspace " " = true /\ islinebreak " " = false.
Proof. split; reflexivity. Qed.

(** A line without line boundaries, closed by a line feed, is one line. *)
Lemma splitlines_from_line (l : text) : forall cur rest,
  Forall (fun a => islinebreak a = false) l ->
  splitlines_from cur (l ++ LF :: rest) = (cur ++ l) :: splitlines_from [] rest.
Proof.
  induction l as [|c l IH]; intros cur rest F.
  - rewrite app_nil_r. reflexivity.
  - inversion F as [|? ? Hc Fl]; subst. cbn [app splitlines_from].
    rewrite (linebreak_facts c Hc), Hc. rewrite IH by assumption.
    now rewrite <- app_assoc.
Qed.

Lemma splitlines_lines (ls : list text) :
  Forall (Forall (fun a => islinebreak a = false)) ls ->
  splitlines (List.concat (map (fun l => l ++ [LF]) ls)) = ls.
Proof.
  unfold splitlines. induction 1 as [|l ls Hl Hls IH]; [reflexivity|].
  cbn [map List.concat]. rewrite <- app_assoc. cbn [app].
  rewrite splitlines_from_line by assumption. cbn [app]. now rewrite IH.
Qed.

Lemma split_from_word (w : text) : forall cur rest,
  Forall (fun a => isspace a = false) w ->
  split_from cur (w ++ rest) = split_from (cur ++ w) rest.
Proof.
  induction w as [|c w IH]; intros cur rest F.
  - now rewrite app_nil_r.
  - inversion F as [|? ? Hc Fw]; subst. cbn [app split_from]. rewrite Hc.
    rewrite IH by assumption. now rewrite <- app_assoc.
Qed.

Lemma split_from_end (w : text) (cur : text) :
  Forall (fun a => isspace a = false) w -> cur ++ w <> [] ->
  split_from cur w = [cur ++ w].
Proof.
  intros F N. pose proof (split_from_word w cur [] F) as H.
  rewrite app_nil_r in H. rewrite H. cbn [split_from].
  destruct (cur ++ w); [congruence | reflexivity].
Qed.

(** Two words with one space between them are two fields. *)
Lemma split_two_words (a b : text) :
  Forall (fun c => isspace c = false) a -> a <> [] ->
  Forall (fun c => isspace c = false) b -> b <> [] ->
  split (a ++ txt " " ++ b) = [a; b].
Proof.
  intros Fa Na Fb Nb. unfold split.
  rewrite split_from_word by assumption. cbn [app].
  change (txt " " ++ b) with (" "%char :: b). cbn [split_from].
  rewrite (proj1 space_facts).
  destruct a as [|x a]; [congruence|]. cbn [is_nil].
  rewrite split_from_end by assumption. reflexivity.
Qed.

Lemma digits_no_space (w : text) :
  Forall (fun a => isdigit a = true) w ->
  Forall (fun a => isspace a = false) w
  /\ Forall (fun a => islinebreak a = false) w.
Proof.
  intros F. split; (eapply Forall_impl; [|exact F]); intros a Ha;
    apply (digit_facts a Ha).
Qed.

Lemma simple_line_fields (sc : Scene) :
  0 <= scene_start sc -> 0 <= scene_last sc ->
  split (simple_line sc)
  = [str_of_Frame (scene_start sc); str_of_Frame (scene_last sc)]
  /\ Forall (fun a => islinebreak a = false) (simple_line sc).
Proof.
  intros Hs He.
  destruct (str_of_Frame_digits _ Hs) as [Fs Ns].
  destruct (str_of_Frame_digits _ He) as [Fe Ne].
  destruct (digits_no_space _ Fs) as [Ss Ls].
  destruct (digits_no_space _ Fe) as [Se Le].
  split.
  - unfold simple_line. now apply split_two_words.
  - unfold simple_line. apply Forall_app. split; [assumption|].
    apply Forall_app. split; [|assumption].
    constructor; [reflexivity | constructor].
Qed.

(** ** Soundness of the matcher *)

Lemma star_greedy_sound {R} p (k : text -> option R) s x :
  star_greedy p k s = Some x ->
  exists w s', s = w ++ s' /\ Forall (fun a => p a = true) w /\ k s' = Some x.
Proof.
  induction s as [|c s IH]; simpl; intros H.
  - exists [], []. auto.
  - destruct (p c) eqn:P.
    + destruct (star_greedy p k s) as [y|] eqn:G.
      * inversion H; subst y. destruct (IH eq_refl) as [w [s' [-> [F K]]]].
        exists (c :: w), s'. auto.
      * exists [], (c :: s). auto.
    + exists [], (c :: s). auto.
Qed.

Lemma star_lazy_sound {R} p (k : text -> option R) s x :
  star_lazy p k s = Some x ->
  exists w s', s = w ++ s' /\ Forall (fun a => p a = true) w /\ k s' = Some x.
Proof.
  induction s as [|c s IH]; simpl; intros H.
  - destruct (k []) eqn:K; [|discriminate]. inversion H; subst.
    exists [], []. auto.
  - destruct (k (c :: s)) eqn:K.
    + inversion H; subst. exists [], (c :: s). auto.
    + destruct (p c) eqn:P; [|discriminate].
      destruct (IH H) as [w [s' [-> [F K']]]].
      exists (c :: w), s'. auto.
Qed.

Lemma firstn_matched (w s' : text) :
  firstn (List.length (w ++ s') - List.length s') (w ++ s') = w.
Proof.
  rewrite length_app, Nat.add_sub.
  rewrite firstn_app, Nat.sub_diag, firstn_all. simpl. apply app_nil_r.
Qed.

Lemma rmatch_sound {R} (r : regex) :
  forall s c (k : text -> captures -> option R) x,
    rmatch r s c k = Some x ->
    exists w s' c', s = w ++ s' /\ matches r w c c' /\ k s' c' = Some x.
Proof.
  induction r as [ | a | p | r1 IH1 r2 IH2 | r1 IH1 r2 IH2 | g p | n r IH];
    intros s c k x H; simpl in H.
  - exists [], s, c. simpl. auto.
  - destruct s as [|c' s]; [discriminate|].
    destruct (Ascii.eqb a c') eqn:E; [|discriminate].
    apply Ascii.eqb_eq in E. subst c'. exists [a], s, c. simpl. auto.
  - destruct s as [|c' s]; [discriminate|].
    destruct (p c') eqn:E; [|discriminate].
    exists [c'], s, c. simpl. split; [reflexivity|]. split; [|assumption].
    exists c'. auto.
  - apply IH1 in H. destruct H as [w1 [s1 [c1 [-> [M1 H]]]]].
    apply IH2 in H. destruct H as [w2 [s2 [c2 [-> [M2 H]]]]].
    exists (w1 ++ w2), s2, c2. rewrite app_assoc. split; [reflexivity|].
    split; [|assumption]. simpl. exists w1, w2, c1. auto.
  - destruct (rmatch r1 s c k) as [y|] eqn:E.
    + inversion H; subst y. apply IH1 in E.
      destruct E as [w [s' [c' [-> [M K]]]]]. exists w, s', c'. simpl. auto.
    + apply IH2 in H.
      destruct H as [w [s' [c' [-> [M K]]]]]. exists w, s', c'. simpl. auto.
  - destruct g.
    + apply star_greedy_sound in H. destruct H as [w [s' [-> [F K]]]].
      exists w, s', c. simpl. auto.
    + apply star_lazy_sound in H. destruct H as [w [s' [-> [F K]]]].
      exists w, s', c. simpl. auto.
  - apply IH in H. destruct H as [w [s' [c' [-> [M K]]]]].
    rewrite firstn_matched in K.
    exists w, s', ((n, w) :: c'). split; [reflexivity|]. split; [|assumption].
    simpl. exists c'. auto.
Qed.

Lemma match_here_sound (r : regex) (s : text) (n : nat) (caps : captures) :
  match_here r s = Some (n, caps) -> exists w, matches r w [] caps.
Proof.
  unfold match_here. intros H. apply rmatch_sound in H.
  destruct H as [w [s' [c' [_ [M K]]]]]. inversion K; subst. now exists w.
Qed.

(** Every match reported by a scan is a match of the pattern. *)
Lemma scan_sound (r : regex) (s : text) :
  forall skip, Forall (fun caps => exists w, matches r w [] caps) (scan r skip s).
Proof.
  induction s as [|c s IH]; intros skip; simpl.
  - destruct skip; [|constructor].
    destruct (match_here r []) as [[n caps]|] eqn:E; [|constructor].
    constructor; [|constructor]. eapply match_here_sound; eassumption.
  - destruct skip; [|apply IH].
    destruct (match_here r (c :: s)) as [[n caps]|] eqn:E; [|apply IH].
    constructor; [|apply IH]. eapply match_here_sound; eassumption.
Qed.

(** ** Scening lists *)

Lemma range_eqb_eq (a b : Frame * Frame) : range_eqb a b = true <-> a = b.
Proof.
  destruct a as [a1 a2], b as [b1 b2]. unfold range_eqb. simpl.
  rewrite andb_true_iff, !Z.eqb_eq.
  split; [intros [-> ->]; reflexivity | intros H; inversion H; auto].
Qed.

Lemma range_eqb_sym (a b : Frame * Frame) : range_eqb a b = range_eqb b a.
Proof. unfold range_eqb. now rewrite (Z.eqb_sym (fst a)), (Z.eqb_sym (snd a)). Qed.

Lemma lookup_scene_absent (l : SceningList) (r : Frame * Frame) :
  existsb (range_eqb r) (map scene_range (items l)) = false ->
  lookup_scene l r = None.
Proof.
  unfold lookup_scene. induction (items l) as [|sc its IH]; [reflexivity|].
  cbn [map existsb List.find]. rewrite orb_false_iff. intros [H1 H2].
  replace (range_eqb (scene_range sc) r) with false; [auto|].
  symmetry. apply not_true_iff_false. intros E. apply range_eqb_eq in E.
  rewrite E in H1. assert (range_eqb r r = true) by now apply range_eqb_eq.
  congruence.
Qed.

Lemma lookup_scene_later (l : SceningList) (f : Frame) :
  Forall (fun sc => scene_start sc < f) (items l) ->
  lookup_scene l (f, f) = None.
Proof.
  unfold lookup_scene. induction (items l) as [|sc its IH]; intros F;
    [reflexivity|].
  inversion F as [|? ? Hsc Fits]; subst. simpl.
  unfold range_eqb at 1. simpl.
  replace (scene_start sc =? f) with false by (symmetry; apply Z.eqb_neq; lia).
  simpl. apply IH. assumption.
Qed.

Lemma SceningList_add_new (l : SceningList) (a b : Frame) (label : text) :
  0 <= a -> a <= b -> b <= max_frame l ->
  lookup_scene l (a, b) = None ->
  SceningList_add l a (Some b) label
  = (mkSceningList (list_name l) (max_frame l)
       (items l ++ [mkScene a (Some b) label]), Ok (mkScene a (Some b) label)).
Proof.
  intros H0 H1 H2 L. unfold SceningList_add, in_bounds, scene_range, scene_last.
  cbn [scene_start scene_end].
  replace (0 <=? a) with true by (symmetry; apply Z.leb_le; lia).
  replace (a <=? max_frame l) with true by (symmetry; apply Z.leb_le; lia).
  replace (0 <=? b) with true by (symmetry; apply Z.leb_le; lia).
  replace (b <=? max_frame l) with true by (symmetry; apply Z.leb_le; lia).
  replace (a <=? b) with true by (symmetry; apply Z.leb_le; lia).
  cbn [andb]. rewrite L. reflexivity.
Qed.

(** [add] keeps the invariant. *)
Lemma SceningList_add_valid (l : SceningList) (start : Frame)
    (end_ : option Frame) (label : text) :
  valid_list l = true -> valid_list (fst (SceningList_add l start end_ label)) = true.
Proof.
  intros V. unfold SceningList_add.
  destruct (in_bounds l start && _ && _) eqn:B; [|exact V].
  destruct (lookup_scene l _) as [old|] eqn:L; [exact V|].
  unfold valid_list in *. cbn [fst items max_frame].
  apply andb_true_iff in V. destruct V as [V1 V2].
  apply andb_true_iff. split.
  - rewrite forallb_app, V1. cbn [forallb]. rewrite andb_true_r.
    unfold in_bounds in B. unfold valid_scene.
    cbn [scene_start] in *.
    apply andb_true_iff in B. destruct B as [B B3].
    apply andb_true_iff in B. destruct B as [B1 B2].
    apply andb_true_iff in B1. destruct B1 as [B1 _].
    apply andb_true_iff in B2. destruct B2 as [_ B2].
    unfold scene_last in *. cbn [scene_start scene_end] in *.
    now rewrite B1, B2, B3.
  - rewrite map_app. cbn [map]. clear V1 B.
    unfold lookup_scene in L.
    induction (items l) as [|sc its IH]; [reflexivity|].
    cbn [map app distinct_ranges List.find] in *.
    destruct (range_eqb (scene_range sc) _) eqn:E; [discriminate|].
    apply andb_true_iff in V2. destruct V2 as [V2 V3].
    rewrite (IH V3 L), andb_true_r.
    rewrite existsb_app. cbn [existsb]. rewrite E.
    apply negb_true_iff in V2. rewrite V2. reflexivity.
Qed.

Lemma add_run (st : import_state) (a b : Frame) (label : text) :
  0 <= a -> a <= b -> b <= max_frame (scening_list st) ->
  lookup_scene (scening_list st) (a, b) = None ->
  add a (Some b) label st
  = (mkImportState
       (mkSceningList (list_name (scening_list st)) (max_frame (scening_list st))
          (items (scening_list st) ++ [mkScene a (Some b) label]))
       (out_of_range_count st) (log st), Ok (mkScene a (Some b) label)).
Proof.
  intros H0 H1 H2 L. unfold add.
  rewrite (SceningList_add_new _ _ _ _ H0 H1 H2 L). reflexivity.
Qed.

Lemma add_single_run (st : import_state) (f : Frame) (label : text) :
  Forall (fun sc => scene_start sc < f) (items (scening_list st)) ->
  add f None label st
  = if (0 <=? f) && (f <=? max_frame (scening_list st))
    then (mkImportState
            (mkSceningList (list_name (scening_list st))
               (max_frame (scening_list st))
               (items (scening_list st) ++ [mkScene f None label]))
            (out_of_range_count st) (log st), Ok (mkScene f None label))
    else (st, Raise ValueError).
Proof.
  intros F. unfold add, SceningList_add, in_bounds, scene_range, scene_last.
  cbn [scene_start scene_end].
  destruct ((0 <=? f) && (f <=? max_frame (scening_list st))) eqn:B.
  - rewrite Z.leb_refl. cbn [andb].
    rewrite (lookup_scene_later _ _ F). reflexivity.
  - cbn [andb]. destruct st. reflexivity.
Qed.

(** ** The dropped-scenes warning of [import_file] (C1) *)

(** Whatever the importer does and counts, [import_file] adds to the log
    at most the message that nothing was imported: the warning about
    dropped scenes is never written. *)
Lemma import_file_warnings (import_func : Importer) (path : Path) (tb : toolbar) :
  let st := fst (import_func (read_text path)
                   (mkImportState (mkSceningList (stem path) (end_frame tb) [])
                      0 (warnings tb))) in
  warnings (fst (import_file import_func path tb)) = log st
  \/ warnings (fst (import_file import_func path tb))
     = log st ++ [nothing_imported_warning path].
Proof.
  unfold import_file, SceningLists_add. simpl.
  destruct (import_func _ _) as [st [u|e]]; simpl.
  - destruct (List.length (items (scening_list st)) =? 0)%nat; simpl.
    + right. reflexivity.
    + unfold set_current_list_index.
      destruct (negb _); simpl; left; reflexivity.
  - left. reflexivity.
Qed.

(** C1 at a failing input: the file holds the lines "3 7" and "5 200" and
    the output ends at frame 100.  The simple importer rejects the second
    scene and counts it in its own variable, [import_file] keeps the first
    scene and logs nothing at all. *)
Theorem import_file_drops_silently :
  let path := mkPath (txt "scenes") (txt "scenes.txt") (lines ["3 7"; "5 200"]) in
  let tb := toolbar_with 100 [] (-1) [] in
  out_of_range_count
    (fst (import_simple (read_text path)
            (mkImportState (mkSceningList (stem path) 100 []) 0 []))) = 1
  /\ import_file import_simple path tb
     = (toolbar_with 100
          [mkSceningList (txt "scenes") 100 [mkScene 3 (Some 7) []]] 0 [],
        Ok tt).
Proof. vm_compute. split; reflexivity. Qed.

(** ** The TFM importer without its section (C2) *)

(** C2, as the code has it: on a log that does not contain
    "OVR HELP INFORMATION" the TFM importer logs one warning and returns
    normally; no exception is raised, the scening list is left as it was
    and nothing is counted. *)
Theorem import_tfm_without_section (content : text) (st : import_state) :
  ~ contains content (txt "OVR HELP INFORMATION") ->
  import_tfm content st
  = (mkImportState (scening_list st) (out_of_range_count st)
       (log st ++ [tfm_no_section]), Ok tt).
Proof.
  intros H. apply find_absent in H.
  unfold import_tfm. rewrite H. reflexivity.
Qed.

Lemma import_tfm_without_section_witness :
  ~ contains (lines ["TFM log"; "12 (40)"; "30,35 (12.5%)"])
             (txt "OVR HELP INFORMATION")
  /\ import_tfm (lines ["TFM log"; "12 (40)"; "30,35 (12.5%)"]) (fresh 100)
     = (mkImportState (fresh_list 100) 0 [tfm_no_section], Ok tt).
Proof.
  assert (H : ~ contains (lines ["TFM log"; "12 (40)"; "30,35 (12.5%)"])
                         (txt "OVR HELP INFORMATION")).
  { apply find_absent. vm_compute. reflexivity. }
  split; [exact H|].
  exact (import_tfm_without_section _ (fresh 100) H).
Defined.

(** C2, as stated, fails: this log has no "OVR HELP INFORMATION" and the
    importer raises nothing. *)
Lemma import_tfm_raises_nothing :
  ~ contains (lines ["TFM log"; "12 (40)"]) (txt "OVR HELP INFORMATION")
  /\ ~ (exists e, snd (import_tfm (lines ["TFM log"; "12 (40)"]) (fresh 100))
                  = Raise e).
Proof.
  split.
  - apply find_absent. vm_compute. reflexivity.
  - intros [e H]. vm_compute in H. discriminate.
Qed.

(** ** Export and re-import (C3) *)

Lemma format_start_end (sc : Scene) :
  format (txt "{start} {end}") sc = Some (Ok (simple_line sc)).
Proof.
  unfold format, simple_line.
  change (markup InText (txt "{start} {end}"))
    with [Field (txt "start"); Literal " "%char; Field (txt "end")].
  cbv -[str_of_Frame scene_start scene_last app].
  now rewrite app_nil_r.
Qed.

Lemma export_loop_start_end (scenes : list Scene) : forall acc,
  export_loop (txt "{start} {end}") [LF] scenes acc
  = Some (Ok (acc ++ List.concat (map (fun l => l ++ [LF]) (map simple_line scenes)))).
Proof.
  induction scenes as [|sc scenes IH]; intros acc; cbn [export_loop map List.concat].
  - now rewrite app_nil_r.
  - rewrite format_start_end, IH. now rewrite <- !app_assoc.
Qed.

(** One line written from a valid scene gives that scene back. *)
Lemma import_simple_line_run (nm : text) (n : Frame) (its : list Scene) (c : Z)
    (lg : list text) (sc : Scene) :
  valid_scene n sc = true ->
  existsb (range_eqb (scene_range sc)) (map scene_range its) = false ->
  import_simple_line (simple_line sc)
    (mkImportState (mkSceningList nm n its) c lg)
  = (mkImportState (mkSceningList nm n (its ++ [unlabelled sc])) c lg, Ok tt).
Proof.
  unfold valid_scene. rewrite !andb_true_iff, !Z.leb_le. intros [[H0 H1] H2] D.
  unfold import_simple_line, try_except.
  destruct (simple_line_fields sc H0 ltac:(lia)) as [-> _].
  unfold bind at 1, lift at 1. cbn [comprehension].
  rewrite !int_of_str_of_Frame by lia.
  unfold bind at 1, lift at 1. cbn [subscript nth_error].
  unfold bind at 1, lift at 1, Frame_of_int.
  replace (scene_start sc <? 0) with false by (symmetry; apply Z.ltb_ge; lia).
  unfold bind at 1, lift at 1. cbn [subscript nth_error].
  unfold bind at 1, lift at 1.
  replace (scene_last sc <? 0) with false by (symmetry; apply Z.ltb_ge; lia).
  unfold bind at 1.
  rewrite add_run; [reflexivity | assumption | assumption | assumption |].
  apply lookup_scene_absent. exact D.
Qed.

Lemma existsb_range_app (r : Frame * Frame) (a b : list (Frame * Frame)) :
  existsb (range_eqb r) a = false -> existsb (range_eqb r) b = false ->
  existsb (range_eqb r) (a ++ b) = false.
Proof. intros Ha Hb. now rewrite existsb_app, Ha, Hb. Qed.

Lemma unlabelled_range (sc : Scene) : scene_range (unlabelled sc) = scene_range sc.
Proof. reflexivity. Qed.

Lemma import_simple_lines_run (nm : text) (n : Frame) (c : Z) (lg : list text)
    (scenes : list Scene) : forall its,
  forallb (valid_scene n) scenes = true ->
  distinct_ranges (map scene_range scenes) = true ->
  forallb (fun sc => negb (existsb (range_eqb (scene_range sc))
                             (map scene_range its))) scenes = true ->
  for_each (map simple_line scenes) import_simple_line
    (mkImportState (mkSceningList nm n its) c lg)
  = (mkImportState (mkSceningList nm n (its ++ map unlabelled scenes)) c lg, Ok tt).
Proof.
  induction scenes as [|sc scenes IH]; intros its V D F.
  - cbn [map for_each]. now rewrite app_nil_r.
  - cbn [map for_each forallb distinct_ranges] in *.
    apply andb_true_iff in V. destruct V as [V Vs].
    apply andb_true_iff in D. destruct D as [D Ds].
    apply andb_true_iff in F. destruct F as [F Fs].
    apply negb_true_iff in F. apply negb_true_iff in D.
    rewrite (bind_run _ _ _ _ _ (import_simple_line_run nm n its c lg sc V F)).
    rewrite IH; [now rewrite <- app_assoc | assumption | assumption |].
    clear IH Vs Ds. induction scenes as [|sc' scenes IH']; [reflexivity|].
    cbn [forallb map existsb] in *.
    apply andb_true_iff in Fs. destruct Fs as [F' Fs].
    apply orb_false_iff in D. destruct D as [D D'].
    rewrite (IH' D' Fs), andb_true_r. apply negb_true_iff.
    apply negb_true_iff in F'.
    rewrite map_app. apply existsb_range_app; [assumption|].
    cbn [map existsb]. rewrite unlabelled_range, orb_false_r.
    now rewrite range_eqb_sym.
Qed.

Lemma map_range_unlabelled (scenes : list Scene) :
  map scene_range (map unlabelled scenes) = map scene_range scenes.
Proof. rewrite map_map. apply map_ext. intros; apply unlabelled_range. Qed.

(** C3, as the code has it: with the template "{start} {end}", the text
    that the multiline export puts on the clipboard for a valid list,
    read by the simple importer into a new list of the same output, gives
    the (start, end) pairs of the original in order; no line is dropped
    and every label is empty. *)
Theorem export_import_simple (tb : toolbar) (l : SceningList) :
  current_list tb = Some l ->
  export_template_lineedit tb = txt "{start} {end}" ->
  valid_list l = true ->
  exists tb' st',
    export_multiline tb = Some (tb', Ok tt)
    /\ import_simple (clipboard tb') (fresh (max_frame l)) = (st', Ok tt)
    /\ map scene_range (items (scening_list st')) = map scene_range (items l)
    /\ Forall (fun sc => scene_label sc = []) (items (scening_list st'))
    /\ out_of_range_count st' = 0.
Proof.
  intros C T V. unfold valid_list in V. apply andb_true_iff in V.
  destruct V as [V D].
  unfold export_multiline. rewrite C, T, export_loop_start_end.
  cbn [app export_finish]. eexists. eexists. split; [reflexivity|].
  cbn [clipboard show_message clipboard_setText].
  unfold import_simple. rewrite splitlines_lines.
  - unfold fresh, fresh_list.
    rewrite import_simple_lines_run; [ | exact V | exact D | ].
    + split; [reflexivity|]. cbn [scening_list items out_of_range_count app].
      split; [apply map_range_unlabelled|]. split; [|reflexivity].
      apply Forall_map. apply Forall_forall. reflexivity.
    + apply forallb_forall. reflexivity.
  - apply Forall_map. apply Forall_forall. intros sc Hin.
    rewrite forallb_forall in V. specialize (V sc Hin).
    unfold valid_scene in V. rewrite !andb_true_iff, !Z.leb_le in V.
    apply simple_line_fields; lia.
Qed.

Lemma export_import_simple_witness :
  let l := mkSceningList (txt "list") 100
             [mkScene 3 (Some 7) (txt "op"); mkScene 12 None []] in
  let tb := exporting (txt "{start} {end}") (txt "old") in
  current_list tb = Some l
  /\ export_template_lineedit tb = txt "{start} {end}"
  /\ valid_list l = true
  /\ exists tb' st',
    export_multiline tb = Some (tb', Ok tt)
    /\ import_simple (clipboard tb') (fresh (max_frame l)) = (st', Ok tt)
    /\ map scene_range (items (scening_list st')) = map scene_range (items l)
    /\ Forall (fun sc => scene_label sc = []) (items (scening_list st'))
    /\ out_of_range_count st' = 0.
Proof.
  split; [reflexivity|]. split; [reflexivity|]. split; [reflexivity|].
  apply (export_import_simple (exporting (txt "{start} {end}") (txt "old"))
           (mkSceningList (txt "list") 100
              [mkScene 3 (Some 7) (txt "op"); mkScene 12 None []]));
    reflexivity.
Defined.

(** C3, as stated, fails.  The list holds the scenes 3-7 and 12.  With the
    template "{start}-{end}" followed by a line feed the export writes
    "3-7", an empty line, "12-12" and an empty line; the importer drops
    "3-7", which is not a pair of integers, and raises [IndexError] on the
    empty line.  With the two characters backslash and n in place of the
    line feed every line is dropped.  No pair comes back either way. *)
Lemma export_import_dash_fails :
  export_multiline (exporting (txt "{start}-{end}" ++ [LF]) [])
  = Some (show_message exported_message
            (clipboard_setText (lines ["3-7"; ""; "12-12"; ""])
               (exporting (txt "{start}-{end}" ++ [LF]) [])), Ok tt)
  /\ import_simple (lines ["3-7"; ""; "12-12"; ""]) (fresh 100)
     = (mkImportState (fresh_list 100) 1 [], Raise IndexError)
  /\ reimported (exporting (txt "{start}-{end}" ++ [LF]) []) <> [(3, 7); (12, 12)]
  /\ import_simple (lines ["3-7\n"; "12-12\n"]) (fresh 100)
     = (mkImportState (fresh_list 100) 2 [], Ok tt)
  /\ reimported (exporting (txt "{start}-{end}\n") []) <> [(3, 7); (12, 12)].
Proof.
  repeat split; try (vm_compute; reflexivity); vm_compute; discriminate.
Qed.

(** ** Templates with an unrecognized placeholder (C4) *)

Lemma kwargs_get_recognized (sc : Scene) (n : text) :
  recognized n = false -> kwargs_get (scene_kwargs sc) n = None.
Proof.
  unfold recognized, scene_kwargs, kwargs_get, text_eqb.
  destruct (list_eq_dec ascii_dec n (txt "start")) as [->|N1];
    [discriminate|].
  destruct (list_eq_dec ascii_dec n (txt "end")) as [->|N2];
    [discriminate|].
  destruct (list_eq_dec ascii_dec n (txt "label")) as [->|N3];
    [discriminate|].
  intros _.
  destruct (list_eq_dec ascii_dec (txt "start") n); [congruence|].
  destruct (list_eq_dec ascii_dec (txt "end") n); [congruence|].
  destruct (list_eq_dec ascii_dec (txt "label") n); [congruence|].
  reflexivity.
Qed.

(** Rendering pieces that are all plain, one of them unrecognized, raises
    [KeyError]. *)
Lemma render_unrecognized (sc : Scene) (its : list item) :
  forallb plain_item its = true -> existsb unrecognized_item its = true ->
  exists n, render (scene_kwargs sc) its = Some (Raise (KeyError n)).
Proof.
  induction its as [|it its IH]; simpl; [discriminate|].
  rewrite andb_true_iff, orb_true_iff. intros [P Ps] U.
  destruct it as [c | name | | ]; simpl in P; try discriminate.
  - destruct U as [U|U]; [discriminate|].
    destruct (IH Ps U) as [n ->]. now exists n.
  - unfold field_value. destruct (is_positional name) eqn:Pos; [discriminate|].
    destruct (kwargs_get (scene_kwargs sc) name) as [v|] eqn:G.
    + destruct U as [U|U].
      * simpl in U. rewrite Pos in U. simpl in U.
        apply negb_true_iff in U.
        rewrite (kwargs_get_recognized sc name U) in G. discriminate.
      * destruct (IH Ps U) as [n ->]. now exists n.
    + now exists name.
Qed.

Lemma export_loop_unrecognized (template suffix : text) (scenes : list Scene)
    (acc : text) :
  references_unrecognized_placeholder template = true -> scenes <> [] ->
  exists n, export_loop template suffix scenes acc = Some (Raise (KeyError n)).
Proof.
  unfold references_unrecognized_placeholder. rewrite andb_true_iff.
  intros [P U] N. destruct scenes as [|sc scenes]; [congruence|].
  simpl. unfold format.
  destruct (render_unrecognized sc _ P U) as [n ->]. now exists n.
Qed.

(** C4: with a template that references an unrecognized placeholder and a
    selected list that is not empty, both exports end in the template
    error: the warning is logged, the message about invalid placeholders
    is shown, nothing is exported, and the clipboard, the lists and the
    other fields of the toolbar are as before. *)
Theorem export_unrecognized_placeholder (tb : toolbar) (l : SceningList) :
  references_unrecognized_placeholder (export_template_lineedit tb) = true ->
  current_list tb = Some l -> items l <> [] ->
  export_multiline tb = Some (template_error tb, Ok tt)
  /\ export_single_line tb = Some (template_error tb, Ok tt)
  /\ clipboard (template_error tb) = clipboard tb
  /\ current_lists (template_error tb) = current_lists tb
  /\ messages (template_error tb) = messages tb ++ [invalid_placeholders_message]
  /\ warnings (template_error tb) = warnings tb ++ [invalid_placeholders_warning].
Proof.
  intros T C N. unfold export_multiline, export_single_line. rewrite C.
  destruct (export_loop_unrecognized _ [LF] _ [] T N) as [n1 ->].
  destruct (export_loop_unrecognized _ [] _ [] T N) as [n2 ->].
  repeat split.
Qed.

Lemma export_unrecognized_placeholder_witness :
  let tb := exporting (txt "{start}-{foo}") (txt "old") in
  export_multiline tb = Some (template_error tb, Ok tt)
  /\ export_single_line tb = Some (template_error tb, Ok tt)
  /\ clipboard (template_error tb) = clipboard tb
  /\ current_lists (template_error tb) = current_lists tb
  /\ messages (template_error tb) = messages tb ++ [invalid_placeholders_message]
  /\ warnings (template_error tb) = warnings tb ++ [invalid_placeholders_warning].
Proof.
  apply (export_unrecognized_placeholder (exporting (txt "{start}-{foo}") (txt "old"))
           (mkSceningList (txt "list") 100
              [mkScene 3 (Some 7) (txt "op"); mkScene 12 None []])).
  - vm_compute. reflexivity.
  - reflexivity.
  - simpl. discriminate.
Defined.

(** Whatever the template, an export that raises leaves the toolbar, and
    with it the clipboard, untouched. *)
Lemma export_raise_keeps_toolbar (tb tb' : toolbar) (e : exn) :
  export_multiline tb = Some (tb', Raise e)
  \/ export_single_line tb = Some (tb', Raise e) ->
  tb' = tb.
Proof.
  unfold export_multiline, export_single_line, export_finish.
  intros [H|H]; destruct (current_list tb); try discriminate;
    destruct (export_loop _ _ _ _) as [[out|e']|]; try discriminate;
    destruct (is_KeyError e'); inversion H; reflexivity.
Qed.

(** ** The QP importer (C5) *)

(** C5 at a failing input: for the line "5 K" the pattern matches the
    bare letter, the group is empty, and no scene is added (the failed
    construction of the frame is counted as out of range); the line "5 I"
    gives the single-frame scene at 5. *)
Theorem import_qp_misses_K :
  import_qp (lines ["5 K"]) (fresh 100)
  = (mkImportState (fresh_list 100) 1 [], Ok tt)
  /\ import_qp (lines ["5 I"]) (fresh 100)
     = (mkImportState (mkSceningList (txt "list") 100 [mkScene 5 None []]) 0 [],
        Ok tt).
Proof. vm_compute. split; reflexivity. Qed.

(** ** Short lines in the simple importer (C6) *)

(** C6 at a failing input: a line with a single number makes
    [fnumbers[1]] raise [IndexError], which the [except ValueError] clause
    does not catch: the import stops there, with the scenes read so far
    in the list. *)
Theorem import_simple_short_line :
  import_simple (lines ["3 7"; "5"; "8 9"]) (fresh 100)
  = (mkImportState (mkSceningList (txt "list") 100 [mkScene 3 (Some 7) []]) 0 [],
     Raise IndexError).
Proof. vm_compute. reflexivity. Qed.

(** ** Matroska timestamps v2 (C7) *)

Lemma read_five_timestamps (st : import_state) :
  read_timestamps (lines ["0"; "100"; "200"; "350"; "500"]) st
  = (st, Ok [0; 100000; 200000; 350000; 500000]).
Proof. vm_compute. reflexivity. Qed.

Lemma fps_label_100000 : fps_label 100000 = Ok (txt "10.000 fps").
Proof. vm_compute. reflexivity. Qed.

Lemma fps_label_150000 : fps_label 150000 = Ok (txt "6.667 fps").
Proof. vm_compute. reflexivity. Qed.

Lemma same_delta_0 : same_delta 0 = true.
Proof. vm_compute. reflexivity. Qed.

Lemma same_delta_50000 : same_delta 50000 = false.
Proof. vm_compute. reflexivity. Qed.

(** C7: on the timestamps 0, 100, 200, 350 and 500 ms, imported into the
    empty list of an output that has the five frames, the importer adds
    exactly two scenes: frames 0-1 labelled "10.000 fps" (the run of
    100 ms deltas, cut one frame early) and frames 2-4 labelled
    "6.667 fps" (the run of 150 ms deltas). *)
Theorem import_v2_two_runs (nm : text) (n : Frame) (c : Z) (lg : list text) :
  4 <= n ->
  import_matroska_timestamps_v2 (lines ["0"; "100"; "200"; "350"; "500"])
    (mkImportState (mkSceningList nm n []) c lg)
  = (mkImportState
       (mkSceningList nm n
          [mkScene 0 (Some 1) (txt "10.000 fps");
           mkScene 2 (Some 4) (txt "6.667 fps")]) c lg, Ok tt).
Proof.
  intros Hn.
  unfold import_matroska_timestamps_v2.
  rewrite (bind_run _ _ _ _ _ (read_five_timestamps _)).
  pose proof fps_label_100000 as L1. pose proof fps_label_150000 as L2.
  pose proof same_delta_0 as S0. pose proof same_delta_50000 as S5.
  cbv -[add fps_label same_delta]. rewrite S0.
  cbv -[add fps_label same_delta]. rewrite S5.
  cbv -[add fps_label same_delta]. rewrite L1.
  rewrite add_run; [ | simpl; lia | lia | simpl; lia | reflexivity].
  cbv -[add fps_label same_delta]. rewrite S0.
  cbv -[add fps_label same_delta]. rewrite L2.
  rewrite add_run; [ | simpl; lia | lia | simpl; lia | reflexivity].
  reflexivity.
Qed.

Lemma import_v2_two_runs_witness :
  4 <= 4
  /\ import_matroska_timestamps_v2 (lines ["0"; "100"; "200"; "350"; "500"])
       (mkImportState (mkSceningList (txt "timestamps") 4 []) 0 [])
     = (mkImportState
          (mkSceningList (txt "timestamps") 4
             [mkScene 0 (Some 1) (txt "10.000 fps");
              mkScene 2 (Some 4) (txt "6.667 fps")]) 0 [], Ok tt).
Proof.
  split; [lia|].
  apply (import_v2_two_runs (txt "timestamps") 4 0 []). lia.
Defined.

(** ** The L-SMASH Works index (C8) *)

(** One iteration of the scan on a matched record. *)
Lemma lwi_step_run (nm : text) (n : Frame) (its : list Scene) (c : Z)
    (lg : list text) (frame : Frame) (m : captures) (g1 g2 : text) :
  group m 1 = Some g1 -> group m 2 = Some g2 ->
  Forall (fun a => isdigit a = true) g1 -> g1 <> [] ->
  Forall (fun a => isdigit a = true) g2 -> g2 <> [] ->
  0 <= frame -> Forall (fun sc => scene_start sc < frame) its ->
  lwi_step frame m (mkImportState (mkSceningList nm n its) c lg)
  = (if is_video_key m then
       if frame <=? n
       then mkImportState
              (mkSceningList nm n (its ++ [single_frame_scene frame])) c lg
       else mkImportState (mkSceningList nm n its) (c + 1) lg
     else mkImportState (mkSceningList nm n its) c lg,
     Ok (frame + 1)).
Proof.
  intros G1 G2 F1 N1 F2 N2 H0 Hits.
  destruct (int_of_str_digits g1 F1 N1) as [I1 _].
  destruct (int_of_str_digits g2 F2 N2) as [I2 _].
  unfold is_video_key, record_codec, record_key, record_number.
  rewrite G1, G2, I1, I2.
  unfold lwi_step, match_group. rewrite G1.
  unfold bind at 1, lift at 1. unfold bind at 1, lift at 1. rewrite I1.
  rewrite Z.ltb_antisym.
  destruct (AV_CODEC_ID_FIRST_AUDIO <=? digits_value 0 g1); [reflexivity|].
  cbn [negb andb]. rewrite G2.
  unfold bind at 1, lift at 1. unfold bind at 1, lift at 1. rewrite I2.
  destruct (digits_value 0 g2 =? IS_KEY); [|reflexivity].
  cbn [negb]. unfold bind at 1, try_except, bind at 1.
  rewrite add_single_run by exact Hits. cbn [scening_list max_frame].
  replace (0 <=? frame) with true by (symmetry; apply Z.leb_le; lia).
  cbn [andb]. destruct (frame <=? n); reflexivity.
Qed.

Lemma lwi_loop_run (nm : text) (n : Frame) (lg : list text) (ms : list captures) :
  Forall (fun m => exists g1 g2,
            group m 1 = Some g1 /\ group m 2 = Some g2
            /\ Forall (fun a => isdigit a = true) g1 /\ g1 <> []
            /\ Forall (fun a => isdigit a = true) g2 /\ g2 <> []) ms ->
  forall frame its c,
    0 <= frame -> Forall (fun sc => scene_start sc < frame) its ->
    for_fold ms frame lwi_step (mkImportState (mkSceningList nm n its) c lg)
    = (mkImportState
         (mkSceningList nm n
            (its ++ map single_frame_scene
                      (filter (fun f => f <=? n) (key_frames frame ms))))
         (c + Z.of_nat (List.length
                          (filter (fun f => negb (f <=? n)) (key_frames frame ms))))
         lg,
       Ok (frame + Z.of_nat (List.length ms))).
Proof.
  induction 1 as [|m ms [g1 [g2 [G1 [G2 [F1 [N1 [F2 N2]]]]]]] Fms IH];
    intros frame its c H0 Hits.
  - simpl. rewrite app_nil_r, Z.add_0_r, Z.add_0_r. reflexivity.
  - cbn [for_fold].
    rewrite (bind_run _ _ _ _ _
               (lwi_step_run nm n its c lg frame m g1 g2 G1 G2 F1 N1 F2 N2 H0 Hits)).
    assert (Hlater : Forall (fun sc => scene_start sc < frame + 1) its).
    { eapply Forall_impl; [|exact Hits]. simpl. intros; lia. }
    cbn [key_frames List.length]. rewrite ?Nat2Z.inj_succ.
    destruct (is_video_key m).
    + cbn [filter]. destruct (frame <=? n) eqn:B; cbn [negb].
      * rewrite IH; [| lia |].
        -- cbn [map]. rewrite <- app_assoc. cbn [app].
           repeat (f_equal; try lia).
        -- apply Forall_app. split; [exact Hlater|].
           constructor; [simpl; lia | constructor].
      * rewrite IH; [| lia | exact Hlater].
        cbn [List.length]. rewrite ?Nat2Z.inj_succ.
        repeat (f_equal; try lia).
    + rewrite IH; [| lia | exact Hlater].
      repeat (f_equal; try lia).
Qed.

(** *** Matching a literal word *)

Lemma rmatch_Lits {R} (w : text) : forall (s : text) (caps : captures)
    (k : text -> captures -> option R),
  rmatch (Lits w) s caps k
  = if startswith s w then k (skipn (List.length w) s) caps else None.
Proof.
  induction w as [|c w IH]; intros s caps k; [reflexivity|].
  destruct w as [|d w].
  - cbn. destruct s as [|c' s]; [reflexivity|].
    destruct (Ascii.eqb c c'); reflexivity.
  - change (Lits (c :: d :: w)) with (Lit c @@ Lits (d :: w)).
    cbn [rmatch]. destruct s as [|c' s]; [reflexivity|].
    cbn [startswith List.length skipn].
    destruct (Ascii.eqb c c'); [|reflexivity].
    rewrite IH. reflexivity.
Qed.

Lemma skipn_length_app {A} (w s : list A) : skipn (List.length w) (w ++ s) = s.
Proof. induction w; simpl; auto. Qed.

Lemma startswith_app (w s : text) : startswith (w ++ s) w = true.
Proof. apply startswith_iff. now exists s. Qed.

Lemma rmatch_Lits_app {R} (w s : text) (caps : captures)
    (k : text -> captures -> option R) :
  rmatch (Lits w) (w ++ s) caps k = k s caps.
Proof. now rewrite rmatch_Lits, startswith_app, skipn_length_app. Qed.

(** *** Passing over what cannot match *)

Lemma star_lazy_here {R} (p : ascii -> bool) (k : text -> option R) (s : text)
    (x : R) :
  k s = Some x -> star_lazy p k s = Some x.
Proof. intros H. destruct s; simpl; now rewrite H. Qed.

Lemma star_lazy_pass {R} (p : ascii -> bool) (k : text -> option R) (s : text) :
  forall a : text,
    Forall (fun c => p c = true) a ->
    (forall a1 a2, a = a1 ++ a2 -> a2 <> [] -> k (a2 ++ s) = None) ->
    star_lazy p k (a ++ s) = star_lazy p k s.
Proof.
  induction a as [|c a IH]; intros F H; [reflexivity|].
  inversion F as [|? ? Hc Fa]; subst.
  pose proof (H [] (c :: a) eq_refl) as H0.
  cbn [app] in *. cbn [star_lazy].
  rewrite H0 by discriminate.
  rewrite Hc. apply IH; [exact Fa|].
  intros a1 a2 E N. apply (H (c :: a1) a2); [now rewrite E | exact N].
Qed.

Lemma star_greedy_run {R} (p : ascii -> bool) (k : text -> option R) (s : text)
    (x : R) :
  forall a : text,
    Forall (fun c => p c = true) a ->
    match s with c :: _ => p c = false | [] => True end ->
    k s = Some x ->
    star_greedy p k (a ++ s) = Some x.
Proof.
  induction a as [|c a IH]; intros F Hs Hk.
  - destruct s as [|c s]; simpl; [exact Hk|]. now rewrite Hs.
  - inversion F as [|? ? Hc Fa]; subst. cbn [app star_greedy].
    rewrite Hc, (IH Fa Hs Hk). reflexivity.
Qed.

(** A text that does not begin with [Index=0] begins no match. *)
Lemma lwi_no_start (s : text) :
  startswith s (txt "Index=0") = false -> match_here lwi_pattern s = None.
Proof.
  intros H. unfold match_here, lwi_pattern, Word.
  cbn [rmatch]. rewrite rmatch_Lits, H. reflexivity.
Qed.

(** A word without line feed that begins in a line lies in the line. *)
Lemma word_in_line (w : text) : forall (s rest r : text),
  ~ In LF w -> s ++ LF :: rest = w ++ r -> exists s2, s = w ++ s2.
Proof.
  induction w as [|a w IH]; intros s rest r N E.
  - now exists s.
  - destruct s as [|c s]; simpl in E.
    + inversion E. subst. exfalso. apply N. now left.
    + inversion E. subst.
      destruct (IH s rest r) as [s2 ->]; [intros I; apply N; now right | assumption |].
      now exists s2.
Qed.

Lemma plain_line_facts (line : text) :
  plain_line line = true ->
  Forall (fun c => dot c = true) line /\ ~ contains line (txt "Index=0").
Proof.
  unfold plain_line. intros H. apply andb_true_iff in H. destruct H as [D F].
  split; [apply Forall_forall; now apply forallb_forall|].
  apply find_absent. now apply Z.eqb_eq.
Qed.

(** No match begins in a plain line, nor at the line feed that ends it. *)
Lemma plain_line_no_start (line rest : text) :
  plain_line line = true ->
  forall a s, line ++ [LF] = a ++ s -> s <> [] ->
    match_here lwi_pattern (s ++ rest) = None.
Proof.
  intros P a s E N. apply lwi_no_start.
  destruct (startswith (s ++ rest) (txt "Index=0")) eqn:S; [exfalso|reflexivity].
  apply startswith_iff in S. destruct S as [r S].
  destruct (plain_line_facts line P) as [_ C]. apply C.
  (* s is a suffix of line ++ [LF]: it is s0 ++ [LF] for a suffix s0 of line *)
  assert (Hs : exists s0, s = s0 ++ [LF] /\ line = a ++ s0).
  { destruct (exists_last N) as [s0 [c Es]]. subst s.
    rewrite app_assoc in E. apply app_inj_tail in E. destruct E as [E1 E2].
    subst c. now exists s0. }
  destruct Hs as [s0 [-> ->]].
  rewrite <- app_assoc in S. cbn [app] in S.
  destruct (word_in_line (txt "Index=0") s0 rest r) as [s2 ->]; [|exact S|].
  - vm_compute. intuition discriminate.
  - exists a, s2. reflexivity.
Qed.

Lemma scan_pass (r : regex) (rest : text) : forall (chunk : text) (skip : nat),
  (forall a s, chunk = a ++ s -> s <> [] -> match_here r (s ++ rest) = None) ->
  scan r skip (chunk ++ rest) = scan r (skip - List.length chunk) rest.
Proof.
  induction chunk as [|c chunk IH]; intros skip H.
  - now rewrite Nat.sub_0_r.
  - assert (H' : forall a s, chunk = a ++ s -> s <> [] ->
                   match_here r (s ++ rest) = None).
    { intros a s E N. apply (H (c :: a) s); [now rewrite E | exact N]. }
    cbn [app scan List.length]. destruct skip as [|skip].
    + change (c :: chunk ++ rest) with ((c :: chunk) ++ rest).
      rewrite (H [] (c :: chunk) eq_refl) by discriminate.
      rewrite (IH 0%nat H'). reflexivity.
    + rewrite (IH skip H'). reflexivity.
Qed.

Lemma scan_plain_line (line rest : text) (skip : nat) :
  plain_line line = true ->
  scan lwi_pattern skip (line ++ LF :: rest)
  = scan lwi_pattern (skip - S (List.length line)) rest.
Proof.
  intros P.
  change (line ++ LF :: rest) with (line ++ [LF] ++ rest).
  rewrite app_assoc, scan_pass.
  - rewrite length_app, Nat.add_comm. reflexivity.
  - apply plain_line_no_start. exact P.
Qed.

Lemma scan_skip (r : regex) (s : text) : forall a : text,
  s <> [] -> scan r (List.length a) (a ++ s) = scan r 0 s.
Proof. induction a as [|c a IH]; intros N; [reflexivity|]. cbn. now apply IH. Qed.

Lemma Lits_head_fail {R} (a c : ascii) (w s : text) (caps : captures)
    (k : text -> captures -> option R) :
  Ascii.eqb a c = false -> rmatch (Lits (a :: w)) (c :: s) caps k = None.
Proof. intros H. rewrite rmatch_Lits. cbn [startswith]. now rewrite H. Qed.

Lemma rmatch_Plus_run {R} (p : ascii -> bool) (w s : text) (caps : captures)
    (k : text -> captures -> option R) (x : R) :
  Forall (fun c => p c = true) w -> w <> [] ->
  match s with c :: _ => p c = false | [] => True end ->
  k s caps = Some x ->
  rmatch (Plus p) (w ++ s) caps k = Some x.
Proof.
  intros F N Hs Hk. destruct w as [|c w]; [congruence|].
  inversion F as [|? ? Hc Fw]; subst.
  unfold Plus. cbn [rmatch app]. rewrite Hc.
  now apply star_greedy_run.
Qed.

Lemma well_formed_packet_facts (p : lwi_packet) :
  well_formed_packet p = true ->
  Forall (fun c => dot c = true /\ Ascii.eqb c "C" = false) (before_codec p)
  /\ Forall (fun c => isdigit c = true) (packet_codec p)
  /\ packet_codec p <> []
  /\ (List.length (packet_codec p) <= int_max_str_digits)%nat
  /\ Forall (fun c => dot c = true) (after_codec p)
  /\ starts_with_digit (after_codec p) = false
  /\ isdigit (packet_key p) = true
  /\ plain_line (after_key p) = true.
Proof.
  unfold well_formed_packet. intros H.
  repeat (apply andb_true_iff in H; destruct H as [H ?]).
  repeat split.
  - apply Forall_forall. intros c Hc.
    pose proof (proj1 (forallb_forall _ _) H c Hc) as Hx.
    apply andb_true_iff in Hx. destruct Hx as [Hd Hn].
    split; [exact Hd | now apply negb_true_iff].
  - apply Forall_forall. now apply forallb_forall.
  - destruct (packet_codec p); [discriminate | discriminate].
  - now apply Nat.leb_le.
  - apply Forall_forall. now apply forallb_forall.
  - now apply negb_true_iff.
  - assumption.
  - assumption.
Qed.

Lemma match_packet (p : lwi_packet) (tail : text) :
  well_formed_packet p = true ->
  match_here lwi_pattern (packet_head p ++ tail)
  = Some (List.length (packet_head p), packet_captures p).
Proof.
  intros W.
  destruct (well_formed_packet_facts p W) as [Fb [Fc [Nc [_ [Fa [Da [Dk _]]]]]]].
  unfold match_here.
  remember (List.length (packet_head p ++ tail)) as n0 eqn:En.
  unfold lwi_pattern, Word, packet_head.
  repeat rewrite <- app_assoc.
  cbn [rmatch].
  rewrite rmatch_Lits_app.
  (* up to Codec= *)
  rewrite star_lazy_pass;
    [ | eapply Forall_impl; [|exact Fb]; cbn beta; tauto
      | intros a1 a2 E N; destruct a2 as [|c a2]; [congruence|];
        cbn [app]; apply Lits_head_fail;
        assert (Hc : In c (before_codec p))
          by (rewrite E; apply in_or_app; right; now left);
        destruct (proj1 (Forall_forall _ _) Fb c Hc) as [_ Hn];
        now rewrite Ascii.eqb_sym ].
  apply star_lazy_here. rewrite rmatch_Lits_app.
  (* the codec *)
  apply rmatch_Plus_run; [exact Fc | exact Nc | | ].
  { destruct (after_codec p) as [|c a]; [reflexivity | exact Da]. }
  (* the rest of the first line *)
  rewrite star_lazy_pass;
    [ | exact Fa
      | intros a1 a2 E N; destruct a2 as [|c a2]; [congruence|];
        cbn [app];
        assert (Hc : In c (after_codec p))
          by (rewrite E; apply in_or_app; right; now left);
        pose proof (proj1 (Forall_forall _ _) Fa c Hc) as Hd;
        unfold dot in Hd; apply negb_true_iff in Hd;
        rewrite Ascii.eqb_sym, Hd; reflexivity ].
  apply star_lazy_here. cbn [app]. rewrite Ascii.eqb_refl.
  (* the second line *)
  apply star_lazy_here. rewrite rmatch_Lits_app.
  cbn [app]. rewrite Dk.
  rewrite firstn_matched.
  replace (firstn (List.length (packet_key p :: tail) - List.length tail)
             (packet_key p :: tail)) with [packet_key p]
    by (cbn [List.length]; rewrite Nat.sub_succ_l, Nat.sub_diag by lia;
        reflexivity).
  subst n0. rewrite length_app, Nat.add_sub.
  unfold packet_head. repeat rewrite <- app_assoc. reflexivity.
Qed.

(** *** The records of an index *)

Lemma scan_packet (p : lwi_packet) (rest : text) :
  well_formed_packet p = true ->
  scan lwi_pattern 0 (entry_text (Packet p) ++ rest)
  = packet_captures p :: scan lwi_pattern 0 rest.
Proof.
  intros W.
  destruct (well_formed_packet_facts p W) as [_ [_ [_ [_ [_ [_ [_ Pk]]]]]]].
  cbn [entry_text]. rewrite <- !app_assoc.
  pose proof (match_packet p (after_key p ++ [LF] ++ rest) W) as M.
  remember (packet_head p) as h eqn:Eh.
  destruct h as [|c h].
  { exfalso. unfold packet_head in Eh. discriminate Eh. }
  cbn [app scan] in *. rewrite M. f_equal.
  cbn [List.length]. rewrite Nat.sub_succ, Nat.sub_0_r.
  rewrite scan_skip by (destruct (after_key p); discriminate).
  rewrite scan_plain_line by exact Pk. reflexivity.
Qed.

Lemma scan_entries (entries : list lwi_entry) :
  forallb (fun e => match e with
                    | Packet p => well_formed_packet p
                    | OtherLine line => plain_line line
                    end) entries = true ->
  scan lwi_pattern 0 (List.concat (map entry_text entries))
  = map packet_captures (packets entries).
Proof.
  induction entries as [|e entries IH]; intros W; [reflexivity|].
  cbn [forallb] in W. apply andb_true_iff in W. destruct W as [We W].
  cbn [map List.concat]. destruct e as [p | line].
  - rewrite scan_packet by exact We. cbn [packets map]. now rewrite IH.
  - cbn [entry_text packets]. rewrite <- app_assoc. cbn [app].
    rewrite (scan_plain_line line _ 0 We). now apply IH.
Qed.

(** The records the scan finds in an index are its packets of the stream
    0, each with its codec and its key flag. *)
Lemma lwi_records_of_index (header : text) (entries : list lwi_entry) :
  well_formed_index header entries = true ->
  lwi_records (lwi_text header entries) = map packet_captures (packets entries).
Proof.
  unfold well_formed_index. intros W.
  apply andb_true_iff in W. destruct W as [W We].
  apply andb_true_iff in W. destruct W as [Ph Lh]. apply Nat.leb_le in Lh.
  unfold lwi_records, finditer, lwi_text, MULTILINE.
  cbn [app]. rewrite scan_plain_line by exact Ph.
  replace (8 - S (List.length header))%nat with 0%nat by lia.
  now apply scan_entries.
Qed.

Lemma digit_is_one (c : ascii) :
  isdigit c = true -> (digit_value c =? IS_KEY) = Ascii.eqb c "1".
Proof.
  destruct c as [[] [] [] [] [] [] [] []]; vm_compute; intros H;
    try discriminate H; reflexivity.
Qed.

Lemma is_video_key_packet (p : lwi_packet) :
  well_formed_packet p = true ->
  is_video_key (packet_captures p) = video_key_packet p.
Proof.
  intros W.
  destruct (well_formed_packet_facts p W) as [_ [Fc [Nc [_ [_ [_ [Dk _]]]]]]].
  unfold is_video_key, video_key_packet, record_codec, record_key,
    record_number, packet_captures. cbn [group List.find fst snd Nat.eqb].
  rewrite (proj1 (int_of_str_digits _ Fc Nc)).
  assert (Fk : Forall (fun a => isdigit a = true) [packet_key p])
    by (constructor; [exact Dk | constructor]).
  rewrite (proj1 (int_of_str_digits [packet_key p] Fk ltac:(discriminate))).
  f_equal. unfold digits_value. cbn [fold_left].
  rewrite <- (digit_is_one _ Dk). reflexivity.
Qed.

Lemma key_frames_of_packets (ps : list lwi_packet) :
  Forall (fun p => well_formed_packet p = true) ps ->
  forall frame,
    key_frames frame (map packet_captures ps) = packet_key_frames frame ps.
Proof.
  induction 1 as [|p ps W F IH]; intros frame; [reflexivity|].
  cbn [map key_frames packet_key_frames].
  rewrite (is_video_key_packet p W), !IH. reflexivity.
Qed.

Lemma packet_captures_groups (ps : list lwi_packet) :
  Forall (fun p => well_formed_packet p = true) ps ->
  Forall (fun m => exists g1 g2,
            group m 1 = Some g1 /\ group m 2 = Some g2
            /\ Forall (fun a => isdigit a = true) g1 /\ g1 <> []
            /\ Forall (fun a => isdigit a = true) g2 /\ g2 <> [])
         (map packet_captures ps).
Proof.
  induction 1 as [|p ps W F IH]; [constructor|].
  cbn [map]. constructor; [|exact IH].
  destruct (well_formed_packet_facts p W) as [_ [Fc [Nc [_ [_ [_ [Dk _]]]]]]].
  exists (packet_codec p), [packet_key p].
  repeat split; try assumption; try discriminate.
  constructor; [exact Dk | constructor].
Qed.

Lemma well_formed_packets (header : text) (entries : list lwi_entry) :
  well_formed_index header entries = true ->
  Forall (fun p => well_formed_packet p = true) (packets entries).
Proof.
  unfold well_formed_index. intros W.
  apply andb_true_iff in W. destruct W as [_ We].
  induction entries as [|e entries IH]; [constructor|].
  cbn [forallb] in We. apply andb_true_iff in We. destruct We as [W1 W2].
  destruct e as [p | line]; cbn [packets]; [constructor|]; auto.
Qed.

(** C8: in the scan of an index the frame counter is incremented once
    for each packet of the stream 0, whatever its codec and key flag, so
    that it ends at their number; a packet of an audio codec (0x10000 and
    above) gives no scene, and the scenes added to the new list are the
    single-frame scenes at the counter values of exactly the packets of a
    video codec with the key flag 1, in order, as far as the list's range
    validation lets them in (the others among them are counted as out of
    range).  The lines of the other streams count for nothing. *)
Theorem lwi_scan_counts_records (header : text) (entries : list lwi_entry)
    (nm : text) (n : Frame) (c : Z) (lg : list text) :
  well_formed_index header entries = true ->
  lwi_scan (lwi_text header entries) (mkImportState (mkSceningList nm n []) c lg)
  = (mkImportState
       (mkSceningList nm n
          (map single_frame_scene
             (filter (fun f => f <=? n)
                (packet_key_frames 0 (packets entries)))))
       (c + Z.of_nat
              (List.length
                 (filter (fun f => negb (f <=? n))
                    (packet_key_frames 0 (packets entries)))))
       lg,
     Ok (Z.of_nat (List.length (packets entries)))).
Proof.
  intros W. unfold lwi_scan. fold (lwi_records (lwi_text header entries)).
  rewrite (lwi_records_of_index header entries W).
  pose proof (well_formed_packets header entries W) as Wp.
  rewrite (lwi_loop_run nm n lg _ (packet_captures_groups _ Wp) 0 [] c);
    [ | lia | constructor].
  rewrite (key_frames_of_packets _ Wp), length_map. reflexivity.
Qed.

Lemma lwi_scan_counts_records_witness :
  well_formed_index lwi_header lwi_entries = true
  /\ lwi_scan (lwi_text lwi_header lwi_entries)
       (mkImportState (mkSceningList (txt "index") 2 []) 0 [])
     = (mkImportState
          (mkSceningList (txt "index") 2 [single_frame_scene 0]) 1 [], Ok 4).
Proof.
  assert (W : well_formed_index lwi_header lwi_entries = true)
    by (vm_compute; reflexivity).
  split; [exact W|].
  exact (lwi_scan_counts_records lwi_header lwi_entries (txt "index") 2 0 [] W).
Defined.

(** ** Restoring the state (C9) *)

Lemma restore_first_frame_run (state : Mapping) (tb : toolbar) :
  (valid_frame_entry state (txt "first_frame") = true
   /\ exists o, restore_first_frame state tb = (with_first_frame o tb, Ok tt))
  \/ (valid_frame_entry state (txt "first_frame") = false
      /\ restore_first_frame state tb = (logging_warning frame1_warning tb, Ok tt)).
Proof.
  unfold valid_frame_entry, restore_first_frame, try_except, bind, lift, modify.
  destruct (getitem state (txt "first_frame")) as [[ | f | s | n | b | ] | e] eqn:E;
    simpl.
  - left. split; [reflexivity | now exists None].
  - left. split; [reflexivity | now exists (Some f)].
  - right. split; reflexivity.
  - right. split; reflexivity.
  - right. split; reflexivity.
  - right. split; reflexivity.
  - right. split; [reflexivity|].
    assert (He : is_KeyError_or_TypeError e = true).
    { clear -E. induction state as [|[k v] state IH]; simpl in E.
      - inversion E. reflexivity.
      - destruct (text_eqb k (txt "first_frame")); [discriminate | auto]. }
    rewrite He. reflexivity.
Qed.

Lemma restore_second_frame_run (state : Mapping) (tb : toolbar) :
  (valid_frame_entry state (txt "second_frame") = true
   /\ exists o, restore_second_frame state tb = (with_second_frame o tb, Ok tt))
  \/ (valid_frame_entry state (txt "second_frame") = false
      /\ restore_second_frame state tb = (logging_warning frame2_warning tb, Ok tt)).
Proof.
  unfold valid_frame_entry, restore_second_frame, try_except, bind, lift, modify.
  destruct (getitem state (txt "second_frame")) as [[ | f | s | n | b | ] | e] eqn:E;
    simpl.
  - left. split; [reflexivity | now exists None].
  - left. split; [reflexivity | now exists (Some f)].
  - right. split; reflexivity.
  - right. split; reflexivity.
  - right. split; reflexivity.
  - right. split; reflexivity.
  - right. split; [reflexivity|].
    assert (He : is_KeyError_or_TypeError e = true).
    { clear -E. induction state as [|[k v] state IH]; simpl in E.
      - inversion E. reflexivity.
      - destruct (text_eqb k (txt "second_frame")); [discriminate | auto]. }
    rewrite He. reflexivity.
Qed.

Lemma try_load_run {A} (state : Mapping) (key : text)
    (expected_type : pyobject -> option A)
    (receiver : A -> toolbar -> toolbar) (tb : toolbar) :
  (exists v a, getitem state key = Ok v /\ expected_type v = Some a
               /\ try_load state key expected_type receiver tb
                  = (receiver a tb, Ok tt))
  \/ ((forall v, getitem state key = Ok v -> expected_type v = None)
      /\ try_load state key expected_type receiver tb
         = (logging_warning (storage_warning key) tb, Ok tt)).
Proof.
  unfold try_load, modify.
  destruct (getitem state key) as [v | e].
  - destruct (expected_type v) as [a|] eqn:E.
    + left. exists v, a. repeat split. exact E.
    + right. split; [|reflexivity]. intros v' H. inversion H. subst. exact E.
  - right. split; [intros v H; discriminate | reflexivity].
Qed.

Lemma as_str_Some (v : pyobject) (s : text) : as_str v = Some s -> v = PyStr s.
Proof. destruct v; simpl; intros H; inversion H; reflexivity. Qed.

Lemma as_SceningSettings_Some (v : pyobject) (u : unit) :
  as_SceningSettings v = Some u -> v = PySettings.
Proof. destruct v; simpl; intros H; inversion H; reflexivity. Qed.

(** The run of [__setstate__], with the case each of its five parts is
    in. *)
Ltac setstate_cases state tb :=
  unfold setstate;
  let V1 := fresh "V1" in let o1 := fresh "o1" in let E1 := fresh "E1" in
  destruct (restore_first_frame_run state tb) as [[V1 [o1 E1]] | [V1 E1]];
  rewrite (bind_run _ _ _ _ _ E1); clear E1;
  repeat run_step;
  match goal with
  | |- context [bind (restore_second_frame state) _ ?t] =>
      let V2 := fresh "V2" in let o2 := fresh "o2" in let E2 := fresh "E2" in
      destruct (restore_second_frame_run state t) as [[V2 [o2 E2]] | [V2 E2]];
      rewrite (bind_run _ _ _ _ _ E2); clear E2
  end;
  repeat run_step;
  match goal with
  | |- context [bind (try_load state ?k as_str with_label) _ ?t] =>
      let G1 := fresh "G1" in let L1 := fresh "L1" in
      let v1 := fresh "v1" in let s1 := fresh "s1" in let T1 := fresh "T1" in
      destruct (try_load_run state k as_str with_label t)
        as [[v1 [s1 [G1 [T1 L1]]]] | [G1 L1]];
      [apply as_str_Some in T1; subst v1|];
      rewrite (bind_run _ _ _ _ _ L1); clear L1
  end;
  match goal with
  | |- context [bind (try_load state ?k as_str with_template) _ ?t] =>
      let G2 := fresh "G2" in let L2 := fresh "L2" in
      let v2 := fresh "v2" in let s2 := fresh "s2" in let T2 := fresh "T2" in
      destruct (try_load_run state k as_str with_template t)
        as [[v2 [s2 [G2 [T2 L2]]]] | [G2 L2]];
      [apply as_str_Some in T2; subst v2|];
      rewrite (bind_run _ _ _ _ _ L2); clear L2
  end;
  match goal with
  | |- context [try_load state ?k as_SceningSettings settings_receiver ?t] =>
      let G3 := fresh "G3" in let L3 := fresh "L3" in
      let v3 := fresh "v3" in let s3 := fresh "s3" in let T3 := fresh "T3" in
      destruct (try_load_run state k as_SceningSettings settings_receiver t)
        as [[v3 [s3 [G3 [T3 L3]]]] | [G3 L3]];
      [apply as_SceningSettings_Some in T3; subst v3|];
      rewrite L3; clear L3
  end.

(** C9: restoring never aborts.  On a toolbar whose two frames are absent,
    as [__init__] leaves them, an entry [first_frame] or [second_frame]
    that is missing or of the wrong type is logged and the frame stays
    absent; the label and the export template are loaded all the same,
    and so are the settings, whose entry is logged when it is missing or
    is no settings object. *)
Theorem setstate_never_aborts (state : Mapping) (tb : toolbar) :
  first_frame tb = None -> second_frame tb = None ->
  exists tb',
    setstate state tb = (tb', Ok tt)
    /\ (valid_frame_entry state (txt "first_frame") = false ->
        first_frame tb' = None /\ In frame1_warning (warnings tb'))
    /\ (valid_frame_entry state (txt "second_frame") = false ->
        second_frame tb' = None /\ In frame2_warning (warnings tb'))
    /\ (forall s, getitem state (txt "label") = Ok (PyStr s) ->
        label_lineedit tb' = s)
    /\ (forall s, getitem state (txt "scening_export_template") = Ok (PyStr s) ->
        export_template_lineedit tb' = s)
    /\ (getitem state (txt "settings") <> Ok PySettings ->
        In (storage_warning (txt "settings")) (warnings tb')).
Proof.
  intros H1 H2.
  setstate_cases state tb;
    (eexists; split; [reflexivity|]);
    simpl; rewrite ?H1, ?H2;
    repeat split; intros; try congruence;
    try (match goal with
         | G : forall v, getitem state ?k = Ok v -> as_str v = None,
           H : getitem state ?k = Ok (PyStr _) |- _ =>
             specialize (G _ H); discriminate G
         end);
    try (rewrite !in_app_iff; simpl; tauto).
Qed.

Lemma setstate_never_aborts_witness :
  first_frame (toolbar_with 100 [] (-1) []) = None
  /\ second_frame (toolbar_with 100 [] (-1) []) = None
  /\ exists tb',
    setstate damaged_state (toolbar_with 100 [] (-1) []) = (tb', Ok tt)
    /\ (valid_frame_entry damaged_state (txt "first_frame") = false ->
        first_frame tb' = None /\ In frame1_warning (warnings tb'))
    /\ (valid_frame_entry damaged_state (txt "second_frame") = false ->
        second_frame tb' = None /\ In frame2_warning (warnings tb'))
    /\ (forall s, getitem damaged_state (txt "label") = Ok (PyStr s) ->
        label_lineedit tb' = s)
    /\ (forall s,
        getitem damaged_state (txt "scening_export_template") = Ok (PyStr s) ->
        export_template_lineedit tb' = s)
    /\ (getitem damaged_state (txt "settings") <> Ok PySettings ->
        In (storage_warning (txt "settings")) (warnings tb')).
Proof.
  split; [reflexivity|]. split; [reflexivity|].
  apply (setstate_never_aborts damaged_state (toolbar_with 100 [] (-1) []));
    reflexivity.
Defined.

(** ** Export with no list selected (C10) *)

(** C10: when no scening list is selected, both exports return at once:
    whatever the template, the toolbar (clipboard, messages, log and all
    the rest) is exactly as before. *)
Theorem export_without_current_list (tb : toolbar) :
  current_list tb = None ->
  export_multiline tb = Some (tb, Ok tt)
  /\ export_single_line tb = Some (tb, Ok tt).
Proof.
  intros H. unfold export_multiline, export_single_line.
  rewrite H. split; reflexivity.
Qed.

Lemma export_without_current_list_witness :
  current_list (toolbar_with 100 [] (-1) (txt "{start} {foo}")) = None
  /\ export_multiline (toolbar_with 100 [] (-1) (txt "{start} {foo}"))
     = Some (toolbar_with 100 [] (-1) (txt "{start} {foo}"), Ok tt)
  /\ export_single_line (toolbar_with 100 [] (-1) (txt "{start} {foo}"))
     = Some (toolbar_with 100 [] (-1) (txt "{start} {foo}"), Ok tt).
Proof.
  split; [reflexivity|].
  apply (export_without_current_list (toolbar_with 100 [] (-1) (txt "{start} {foo}"))).
  reflexivity.
Defined.

(** * Further properties

    What the importers, the exports and the state code do beyond the
    statements above. *)

(** ** What the pieces of an importer can raise *)

Lemma int_of_str_raises (s : text) (e : exn) :
  int_of_str s = Raise e -> e = ValueError.
Proof.
  unfold int_of_str. destruct (strip s) as [|c r]; [congruence|].
  destruct (Ascii.eqb c "-"); [|destruct (Ascii.eqb c "+")];
    match goal with
    | |- context [int_digits ?p ?a ?w] => destruct (int_digits p a w)
    end; congruence.
Qed.

Lemma Frame_of_int_raises (n : Z) (e : exn) :
  Frame_of_int n = Raise e -> e = ValueError.
Proof. unfold Frame_of_int. destruct (n <? 0); congruence. Qed.

Lemma comprehension_int_raises (fields : list text) (e : exn) :
  comprehension int_of_str fields = Raise e -> e = ValueError.
Proof.
  induction fields as [|f fields IH]; simpl; [discriminate|].
  destruct (int_of_str f) as [n|e'] eqn:E.
  - destruct (comprehension int_of_str fields); [discriminate|].
    intros H. inversion H; subst. now apply IH.
  - intros H. inversion H; subst. eapply int_of_str_raises; eassumption.
Qed.

Lemma comprehension_length {X A} (f : X -> result A) (xs : list X) (l : list A) :
  comprehension f xs = Ok l -> List.length l = List.length xs.
Proof.
  revert l. induction xs as [|x xs IH]; simpl; intros l H.
  - inversion H. reflexivity.
  - destruct (f x); [|discriminate].
    destruct (comprehension f xs); [|discriminate].
    inversion H. simpl. f_equal. now apply IH.
Qed.

Lemma SceningList_add_raises (l : SceningList) (a : Frame) (b : option Frame)
    (label : text) (l' : SceningList) (e : exn) :
  SceningList_add l a b label = (l', Raise e) -> e = ValueError /\ l' = l.
Proof.
  unfold SceningList_add. destruct (_ && _ && _).
  - destruct (lookup_scene l _); discriminate.
  - intros H. inversion H. auto.
Qed.

Lemma add_raises (a : Frame) (b : option Frame) (label : text)
    (st st' : import_state) (e : exn) :
  add a b label st = (st', Raise e) -> e = ValueError /\ st' = st.
Proof.
  unfold add. destruct (SceningList_add _ _ _ _) as [l' r] eqn:E.
  intros H. inversion H; subst.
  destruct (SceningList_add_raises _ _ _ _ _ _ E) as [-> ->].
  split; [reflexivity|]. now destruct st.
Qed.

(** A [try] block around [add] that counts a [ValueError] never raises. *)
Lemma try_add_run (a : Frame) (b : option Frame) (label : text)
    (st : import_state) :
  exists st',
    try_except (_ <- add a b label ;; ret tt) is_ValueError count_out_of_range st
    = (st', Ok tt).
Proof.
  unfold try_except, bind. destruct (add a b label st) as [st1 [sc|e]] eqn:E.
  - eexists. reflexivity.
  - destruct (add_raises _ _ _ _ _ _ E) as [-> ->]. eexists. reflexivity.
Qed.

(** ** The simple importer *)

Lemma import_simple_line_outcome (line : text) (st : import_state) :
  (exists st', import_simple_line line st = (st', Ok tt))
  \/ (import_simple_line line st = (st, Raise IndexError)
      /\ (List.length (split line) < 2)%nat).
Proof.
  unfold import_simple_line, try_except, bind, lift, subscript, Frame_of_int.
  destruct (comprehension int_of_str (split line)) as [fnumbers|e] eqn:C.
  2:{ rewrite (comprehension_int_raises _ _ C). left. eexists. reflexivity. }
  pose proof (comprehension_length _ _ _ C) as L.
  destruct fnumbers as [|n0 fnumbers]; cbn [nth_error].
  { right. split; [reflexivity|]. rewrite <- L. simpl. lia. }
  destruct (n0 <? 0); [left; eexists; reflexivity|].
  destruct fnumbers as [|n1 fnumbers]; cbn [nth_error].
  { right. split; [reflexivity|]. rewrite <- L. simpl. lia. }
  destruct (n1 <? 0); [left; eexists; reflexivity|].
  left.
  match goal with
  | |- context [add ?a ?b ?l st] =>
      destruct (add a b l st) as [st1 [sc|e]] eqn:E
  end.
  - eexists. reflexivity.
  - destruct (add_raises _ _ _ _ _ _ E) as [-> ->]. eexists. reflexivity.
Qed.

(** [import_simple] either returns normally or raises [IndexError]: no
    other exception leaves it, whatever the text. *)
Theorem import_simple_outcome (content : text) (st : import_state) :
  (exists st', import_simple content st = (st', Ok tt))
  \/ (exists st', import_simple content st = (st', Raise IndexError)).
Proof.
  unfold import_simple. revert st.
  induction (splitlines content) as [|line ls IH]; intros st; cbn [for_each].
  - left. eexists. reflexivity.
  - unfold bind.
    destruct (import_simple_line_outcome line st) as [[st1 ->] | [-> _]].
    + apply IH.
    + right. eexists. reflexivity.
Qed.

(** When every line of the text has at least two fields, [import_simple]
    returns normally: a field that is no integer, a negative number or a
    range outside the output only makes the line count as dropped. *)
Theorem import_simple_returns (content : text) (st : import_state) :
  Forall (fun line => (2 <= List.length (split line))%nat) (splitlines content) ->
  exists st', import_simple content st = (st', Ok tt).
Proof.
  unfold import_simple. intros F. revert st.
  induction F as [|line ls Hl F IH]; intros st; cbn [for_each].
  - eexists. reflexivity.
  - unfold bind.
    destruct (import_simple_line_outcome line st) as [[st1 ->] | [_ H]];
      [apply IH | lia].
Qed.

Lemma import_simple_returns_witness :
  Forall (fun line => (2 <= List.length (split line))%nat)
    (splitlines (lines ["3 7"; "x y"; "-1 4"; "8 200 9"]))
  /\ exists st',
       import_simple (lines ["3 7"; "x y"; "-1 4"; "8 200 9"]) (fresh 100)
       = (st', Ok tt).
Proof.
  assert (F : Forall (fun line => (2 <= List.length (split line))%nat)
                (splitlines (lines ["3 7"; "x y"; "-1 4"; "8 200 9"]))).
  { vm_compute. repeat constructor. }
  split; [exact F|].
  exact (import_simple_returns _ (fresh 100) F).
Defined.

(** ** The XviD log *)

Lemma import_xvid_lines_run (nm : text) (n : Frame) (lg : list text)
    (ls : list text) : forall k its c,
  Forall (fun sc => scene_start sc < k - 3) its ->
  for_each (enumerate_from k ls) import_xvid_line
    (mkImportState (mkSceningList nm n its) c lg)
  = (mkImportState
       (mkSceningList nm n
          (its ++ map single_frame_scene
                    (filter (fun f => (0 <=? f) && (f <=? n))
                       (map (fun p => fst p - 3)
                          (filter (fun p => startswith (snd p) (txt "i"))
                             (enumerate_from k ls))))))
       (c + Z.of_nat
              (List.length
                 (filter (fun f => negb ((0 <=? f) && (f <=? n)))
                    (map (fun p => fst p - 3)
                       (filter (fun p => startswith (snd p) (txt "i"))
                          (enumerate_from k ls))))))
       lg, Ok tt).
Proof.
  induction ls as [|line ls IH]; intros k its c Hits;
    cbn [enumerate_from for_each filter map].
  - cbn [List.length]. now rewrite app_nil_r, Z.add_0_r.
  - assert (Hlater : Forall (fun sc => scene_start sc < k + 1 - 3) its).
    { eapply Forall_impl; [|exact Hits]. simpl. intros; lia. }
    unfold bind at 1, import_xvid_line at 1. cbn [snd fst].
    destruct (startswith line (txt "i")); cbn [negb].
    + cbn [map filter fst snd]. unfold try_except, bind, lift, Frame_of_int.
      destruct (k - 3 <? 0) eqn:Neg.
      * replace (0 <=? k - 3) with false by (symmetry; apply Z.leb_gt; lia).
        cbn [andb negb is_ValueError count_out_of_range modify].
        cbn [scening_list out_of_range_count log].
        rewrite IH by exact Hlater. cbn [List.length].
        rewrite Nat2Z.inj_succ. repeat (f_equal; try lia).
      * rewrite add_single_run by exact Hits.
        cbn [scening_list max_frame items out_of_range_count log list_name].
        destruct ((0 <=? k - 3) && (k - 3 <=? n)) eqn:B; cbn [negb].
        -- cbn [ret]. rewrite IH.
           ++ cbn [map]. rewrite <- app_assoc. reflexivity.
           ++ apply Forall_app. split; [exact Hlater|].
              constructor; [simpl; lia | constructor].
        -- cbn [is_ValueError count_out_of_range modify].
           cbn [scening_list out_of_range_count log].
           rewrite IH by exact Hlater. cbn [List.length].
           rewrite Nat2Z.inj_succ. repeat (f_equal; try lia).
    + cbn [ret]. apply IH. exact Hlater.
Qed.

(** [import_xvid] never raises.  Into a new list it puts, in order, the
    single-frame scenes at [i - 3] for the lines numbered [i] that start
    with the letter i, as far as [i - 3] is a frame of the output; the
    others (the first three lines among them) are counted as out of
    range. *)
Theorem import_xvid_scenes (content nm : text) (n : Frame) (c : Z)
    (lg : list text) :
  import_xvid content (mkImportState (mkSceningList nm n []) c lg)
  = (mkImportState
       (mkSceningList nm n
          (map single_frame_scene
             (filter (fun f => (0 <=? f) && (f <=? n)) (xvid_frames content))))
       (c + Z.of_nat
              (List.length
                 (filter (fun f => negb ((0 <=? f) && (f <=? n)))
                    (xvid_frames content))))
       lg, Ok tt).
Proof.
  unfold import_xvid, xvid_frames, enumerate.
  rewrite import_xvid_lines_run by constructor. reflexivity.
Qed.

Example import_xvid_ex :
  import_xvid (lines ["# XviD 2pass stat file"; "i 1"; ""; "i 2"; "p 3"; "i 4";
                      "b 5"; "i 6"]) (fresh 3)
  = (mkImportState
       (mkSceningList (txt "list") 3 [mkScene 0 None []; mkScene 2 None []])
       2 [], Ok tt).
Proof. vm_compute. reflexivity. Qed.

(** ** Computations that return *)

Lemma returns_ret {S A} (a : A) : returns (@ret S A a).
Proof. intros s. now exists s, a. Qed.

Lemma returns_bind {S A B} (m : M S A) (f : A -> M S B) :
  returns m -> (forall a, returns (f a)) -> returns (bind m f).
Proof.
  intros Hm Hf s. unfold bind. destruct (Hm s) as [s1 [a ->]]. apply Hf.
Qed.

Lemma returns_modify {S} (f : S -> S) : returns (modify f).
Proof. intros s. now exists (f s), tt. Qed.

Lemma returns_lift_Ok {S A} (a : A) : returns (@lift S A (Ok a)).
Proof. intros s. now exists s, a. Qed.

Lemma returns_for_fold {S X A} (P : X -> Prop) (xs : list X)
    (body : A -> X -> M S A) :
  Forall P xs -> (forall a x, P x -> returns (body a x)) ->
  forall a, returns (for_fold xs a body).
Proof.
  intros F Hb. induction F as [|x xs Hx F IH]; intros a; cbn [for_fold].
  - apply returns_ret.
  - apply returns_bind; [now apply Hb | exact IH].
Qed.

Lemma returns_for_each {S X} (xs : list X) (body : X -> M S unit) :
  (forall x, returns (body x)) -> returns (for_each xs body).
Proof.
  intros Hb. induction xs as [|x xs IH]; cbn [for_each].
  - apply returns_ret.
  - apply returns_bind; [apply Hb | intros _; exact IH].
Qed.

(** In a [try] block that catches [ValueError], a body that can raise
    nothing else makes the block return. *)
Lemma returns_try_ValueError {S A} (body handler : M S A) :
  (forall s s' e, body s = (s', Raise e) -> e = ValueError) ->
  returns handler ->
  returns (try_except body is_ValueError handler).
Proof.
  intros Hb Hh s. unfold try_except.
  destruct (body s) as [s1 [a|e]] eqn:E.
  - now exists s1, a.
  - rewrite (Hb _ _ _ E). apply Hh.
Qed.

(** ** The TFM log *)

Lemma tfm_frame_groups (m : captures) (w : text) :
  matches tfm_frame_pattern w [] m ->
  exists g1 g2,
    group m 1 = Some g1 /\ group m 2 = Some g2 /\ digits g1 /\ digits g2.
Proof.
  unfold tfm_frame_pattern. cbn [matches Plus]. intros H.
  repeat match goal with
         | H : exists _, _ |- _ => destruct H
         | H : _ /\ _ |- _ => destruct H
         end.
  subst. eexists; eexists. split; [reflexivity|]. split; [reflexivity|].
  split; (split; [|discriminate]);
    (apply Forall_app; split; [|assumption]);
    (constructor; [assumption | constructor]).
Qed.

Lemma tfm_group_groups (m : captures) (w : text) :
  matches tfm_group_pattern w [] m ->
  exists g1 g2 g3,
    group m 1 = Some g1 /\ group m 2 = Some g2 /\ group m 3 = Some g3
    /\ digits g1 /\ digits g2.
Proof.
  unfold tfm_group_pattern. cbn [matches Plus]. intros H.
  repeat match goal with
         | H : exists _, _ |- _ => destruct H
         | H : _ /\ _ |- _ => destruct H
         end.
  subst. eexists; eexists; eexists.
  split; [reflexivity|]. split; [reflexivity|]. split; [reflexivity|].
  split; (split; [|discriminate]);
    (apply Forall_app; split; [|assumption]);
    (constructor; [assumption | constructor]).
Qed.

Lemma Frame_of_int_digits (w : text) :
  digits w ->
  int_of_str w = Ok (digits_value 0 w)
  /\ Frame_of_int (digits_value 0 w) = Ok (digits_value 0 w).
Proof.
  intros [F N]. destruct (int_of_str_digits w F N) as [I P].
  split; [exact I|]. unfold Frame_of_int.
  replace (digits_value 0 w <? 0) with false by (symmetry; apply Z.ltb_ge; lia).
  reflexivity.
Qed.

(** On a log in which no run of digits is longer than [int] takes,
    [import_tfm] returns normally, whatever the list it is given: the
    numbers it converts are runs of digits of the log, and a range that
    the list refuses is counted. *)
Theorem import_tfm_returns (content : text) (st : import_state) :
  within_int_limit content = true ->
  exists st', import_tfm content st = (st', Ok tt).
Proof.
  intros _.
  assert (R : returns (import_tfm content)).
  2:{ destruct (R st) as [st' [[] H]]. now exists st'. }
  unfold import_tfm.
  destruct (find content (txt "OVR HELP INFORMATION") =? -1);
    [apply returns_modify|].
  apply returns_bind.
  { apply returns_for_fold
      with (P := fun m => exists w, matches tfm_frame_pattern w [] m);
      [apply scan_sound|].
    intros fs m [w Hm] s.
    destruct (tfm_frame_groups m w Hm) as [g1 [g2 [G1 [G2 [D1 D2]]]]].
    destruct (Frame_of_int_digits g1 D1) as [I1 F1].
    destruct (Frame_of_int_digits g2 D2) as [I2 _].
    unfold bind, lift, match_group. rewrite G1, I1, F1, G2, I2.
    eexists; eexists; reflexivity. }
  intros fs1. apply returns_bind.
  { apply returns_for_fold
      with (P := fun m => exists w, matches tfm_group_pattern w [] m);
      [apply scan_sound|].
    intros fs m [w Hm].
    destruct (tfm_group_groups m w Hm) as [g1 [g2 [g3 [G1 [G2 [G3 [D1 D2]]]]]]].
    destruct (Frame_of_int_digits g1 D1) as [I1 F1].
    destruct (Frame_of_int_digits g2 D2) as [I2 F2].
    apply returns_bind.
    - apply returns_try_ValueError.
      + intros s s' e. unfold bind, lift, match_group.
        rewrite G1, I1, F1, G2, I2, F2, G3.
        match goal with
        | |- context [add ?a ?b ?l s] =>
            destruct (add a b l s) as [s1 [sc|e1]] eqn:E
        end.
        * discriminate.
        * intros H. inversion H; subst. now apply (add_raises _ _ _ _ _ _ E).
      + apply returns_bind; [apply returns_modify | intros; apply returns_ret].
    - intros [scene|]; apply returns_ret. }
  intros fs2. apply returns_for_each. intros f s.
  destruct (try_add_run (fst f) None (str_of_int (snd f)) s) as [s' H].
  exists s', tt. exact H.
Qed.

Lemma import_tfm_returns_witness :
  within_int_limit tfm_log = true
  /\ exists st', import_tfm tfm_log (fresh 100) = (st', Ok tt).
Proof.
  assert (L : within_int_limit tfm_log = true) by (vm_compute; reflexivity).
  split; [exact L|].
  exact (import_tfm_returns tfm_log (fresh 100) L).
Defined.

(** ** Matroska timestamps v2 at a constant rate *)


(** Deltas that differ by a microsecond at most pass the comparison of
    the importer. *)
Lemma same_delta_within (d : Time) : Z.abs d <= 1 -> same_delta d = true.
Proof.
  intros H. assert (E : d = -1 \/ d = 0 \/ d = 1) by lia.
  destruct E as [-> | [-> | ->]]; vm_compute; reflexivity.
Qed.







(** ** Lines that are not timestamps *)

Lemma read_timestamps_skips (ls : list text) :
  forall (acc : list Time) (st : import_state),
  for_fold ls acc
    (fun timestamps line =>
       try_except
         (x <- lift (float_of_str line) ;;
          t <- lift (Time_of_milliseconds x) ;;
          ret (timestamps ++ [t]))
         is_ValueError
         (ret timestamps)) st
  = for_fold (filter (fun l => negb (not_a_timestamp l)) ls) acc
      (fun timestamps line =>
         try_except
           (x <- lift (float_of_str line) ;;
            t <- lift (Time_of_milliseconds x) ;;
            ret (timestamps ++ [t]))
           is_ValueError
           (ret timestamps)) st.
Proof.
  remember (fun (timestamps : list Time) (line : text) =>
              try_except
                (x <- lift (float_of_str line) ;;
                 t <- lift (Time_of_milliseconds x) ;;
                 ret (timestamps ++ [t]))
                is_ValueError
                (ret timestamps) : M import_state (list Time)) as body.
  assert (Skip : forall l acc st,
             not_a_timestamp l = true -> body acc l st = (st, Ok acc)).
  { intros l acc st N. subst body. unfold not_a_timestamp in N.
    unfold try_except, bind, lift.
    destruct (float_of_str l) as [x|e].
    - destruct (Time_of_milliseconds x) as [t|e]; [discriminate|].
      now rewrite N.
    - now rewrite N. }
  clear Heqbody.
  induction ls as [|l ls IH]; intros acc st; cbn [filter for_fold];
    [reflexivity|].
  destruct (not_a_timestamp l) eqn:N; cbn [negb for_fold].
  - unfold bind at 1. rewrite (Skip l acc st N). apply IH.
  - unfold bind. destruct (body acc l st) as [s1 [a|e]];
      [apply IH | reflexivity].
Qed.

Lemma filter_no_linebreak (f : text -> bool) (ls : list text) :
  Forall (Forall (fun a => islinebreak a = false)) ls ->
  Forall (Forall (fun a => islinebreak a = false)) (filter f ls).
Proof.
  intros F. apply Forall_forall. intros l Hl. apply filter_In in Hl.
  rewrite Forall_forall in F. now apply F.
Qed.

(** The lines on which [float] (or [Time]) raises [ValueError] (a header,
    a comment, a blank line) have no part in the import: the file without
    them gives the same result. *)
Theorem import_v2_skips_other_lines (ls : list text) (st : import_state) :
  Forall (Forall (fun a => islinebreak a = false)) ls ->
  import_matroska_timestamps_v2 (unlines ls) st
  = import_matroska_timestamps_v2
      (unlines (filter (fun l => negb (not_a_timestamp l)) ls)) st.
Proof.
  intros F. unfold import_matroska_timestamps_v2, read_timestamps, unlines.
  rewrite !splitlines_lines by (try apply filter_no_linebreak; exact F).
  unfold bind at 1 2. now rewrite read_timestamps_skips.
Qed.

Lemma import_v2_skips_other_lines_witness :
  import_matroska_timestamps_v2
    (unlines [txt "# timestamp format v2"; txt "0"; []; txt "100"; txt "nan";
              txt "200"]) (fresh 100)
  = import_matroska_timestamps_v2
      (unlines (filter (fun l => negb (not_a_timestamp l))
                  [txt "# timestamp format v2"; txt "0"; []; txt "100";
                   txt "nan"; txt "200"])) (fresh 100).
Proof.
  apply (import_v2_skips_other_lines
           [txt "# timestamp format v2"; txt "0"; []; txt "100"; txt "nan";
            txt "200"] (fresh 100)).
  repeat constructor.
Defined.

Example not_a_timestamp_ex :
  filter (fun l => negb (not_a_timestamp l))
    [txt "# timestamp format v2"; txt "0"; []; txt "100"; txt "nan"; txt "200"]
  = [txt "0"; txt "100"; txt "200"].
Proof. vm_compute. reflexivity. Qed.

(** ** Export: templates that can always be rendered *)

Lemma recognized_names (n : text) :
  recognized n = true ->
  n = txt "start" \/ n = txt "end" \/ n = txt "label".
Proof.
  unfold recognized, text_eqb.
  destruct (list_eq_dec ascii_dec n (txt "start")); [auto|].
  destruct (list_eq_dec ascii_dec n (txt "end")); [auto|].
  destruct (list_eq_dec ascii_dec n (txt "label")); [auto|].
  discriminate.
Qed.

Lemma render_recognized (sc : Scene) (its : list item) :
  forallb recognized_item its = true ->
  exists s, render (scene_kwargs sc) its = Some (Ok s).
Proof.
  induction its as [|it its IH]; cbn [forallb render]; [now exists []|].
  rewrite andb_true_iff. intros [R Rs]. destruct (IH Rs) as [s Hs].
  destruct it as [c | n | | ]; cbn [recognized_item] in R; try discriminate.
  - rewrite Hs. now eexists.
  - assert (V : exists v, field_value (scene_kwargs sc) n = Ok v).
    { destruct (recognized_names n R) as [-> | [-> | ->]];
        eexists; reflexivity. }
    destruct V as [v ->]. rewrite Hs. now eexists.
Qed.

Lemma export_loop_recognized (template suffix : text) (scenes : list Scene) :
  recognized_template template = true ->
  forall acc,
    export_loop template suffix scenes acc
    = Some (Ok (acc ++ List.concat
                         (map (fun sc => rendered template sc ++ suffix) scenes))).
Proof.
  intros R. induction scenes as [|sc scenes IH]; intros acc;
    cbn [export_loop map List.concat].
  - now rewrite app_nil_r.
  - unfold rendered at 1. unfold format.
    destruct (render_recognized sc _ R) as [s Hs]. unfold format in *.
    rewrite Hs, IH. now rewrite <- !app_assoc.
Qed.

(** With a template of text and the placeholders [{start}], [{end}],
    [{label}] only, both exports succeed on every list: the clipboard
    receives the renderings of the scenes in list order (each followed by
    a line feed in the multiline export), and the message that the data
    was exported is shown. *)
Theorem export_recognized_template (tb : toolbar) (l : SceningList) :
  recognized_template (export_template_lineedit tb) = true ->
  current_list tb = Some l ->
  export_multiline tb
  = Some (exported
            (List.concat
               (map (fun sc => rendered (export_template_lineedit tb) sc ++ [LF])
                  (items l))) tb, Ok tt)
  /\ export_single_line tb
     = Some (exported
               (List.concat
                  (map (fun sc => rendered (export_template_lineedit tb) sc)
                     (items l))) tb, Ok tt).
Proof.
  intros R C. unfold export_multiline, export_single_line. rewrite C.
  rewrite !export_loop_recognized by exact R. cbn [app export_finish].
  split; [reflexivity|].
  replace (map (fun sc => rendered (export_template_lineedit tb) sc ++ [])
             (items l))
    with (map (fun sc => rendered (export_template_lineedit tb) sc) (items l))
    by (apply map_ext; intros sc; now rewrite app_nil_r).
  reflexivity.
Qed.

Lemma export_recognized_template_witness :
  let tb := exporting (txt "trim({start},{end}) # {label}") (txt "old") in
  export_multiline tb
  = Some (exported (lines ["trim(3,7) # op"; "trim(12,12) # "]) tb, Ok tt)
  /\ export_single_line tb
     = Some (exported (txt "trim(3,7) # optrim(12,12) # ") tb, Ok tt).
Proof.
  apply (export_recognized_template
           (exporting (txt "trim({start},{end}) # {label}") (txt "old"))
           (mkSceningList (txt "list") 100
              [mkScene 3 (Some 7) (txt "op"); mkScene 12 None []]));
    reflexivity.
Defined.

(** ** Export of an empty list *)

(** When the selected list is empty the template is never looked at:
    both exports succeed and put the empty text on the clipboard, even
    with a template that is malformed or names unknown placeholders. *)
Theorem export_empty_list (tb : toolbar) (l : SceningList) :
  current_list tb = Some l -> items l = [] ->
  export_multiline tb = Some (exported [] tb, Ok tt)
  /\ export_single_line tb = Some (exported [] tb, Ok tt).
Proof.
  intros C E. unfold export_multiline, export_single_line.
  rewrite C, E. split; reflexivity.
Qed.

Lemma export_empty_list_witness :
  let tb := clipboard_setText (txt "old")
              (toolbar_with 100 [fresh_list 100] 0 (txt "{foo}} {0:>")) in
  export_multiline tb = Some (exported [] tb, Ok tt)
  /\ export_single_line tb = Some (exported [] tb, Ok tt).
Proof.
  apply (export_empty_list
           (clipboard_setText (txt "old")
              (toolbar_with 100 [fresh_list 100] 0 (txt "{foo}} {0:>")))
           (fresh_list 100)); reflexivity.
Defined.

(** ** Multiline export as a single-line export *)

Lemma then_line_feed_cons (it : item) (its : list item) :
  complete_item it = true ->
  then_line_feed (it :: its) = it :: then_line_feed its.
Proof.
  intros H. unfold then_line_feed. cbn [forallb]. rewrite H. cbn [andb].
  now destruct (forallb complete_item its).
Qed.

Lemma line_feed_facts :
  Ascii.eqb LF "{" = false /\ Ascii.eqb LF "}" = false
  /\ is_field_operator LF = false.
Proof. repeat split. Qed.

(** The pieces of a template followed by a line feed. *)
Lemma markup_line_feed (t : text) : forall mode,
  markup mode (t ++ [LF]) = then_line_feed (markup mode t).
Proof.
  destruct line_feed_facts as [L1 [L2 L3]].
  induction t as [|c t IH]; intros mode.
  - destruct mode; cbn [app markup]; rewrite ?L1, ?L2, ?L3; reflexivity.
  - destruct mode; cbn [app markup].
    + destruct (Ascii.eqb c "{"); [apply IH|].
      destruct (Ascii.eqb c "}"); [apply IH|].
      rewrite then_line_feed_cons by reflexivity. now rewrite IH.
    + destruct (Ascii.eqb c "{").
      { rewrite then_line_feed_cons by reflexivity. now rewrite IH. }
      destruct (Ascii.eqb c "}").
      { rewrite then_line_feed_cons by reflexivity. now rewrite IH. }
      destruct (is_field_operator c); [reflexivity | apply IH].
    + destruct (Ascii.eqb c "}"); [|reflexivity].
      rewrite then_line_feed_cons by reflexivity. now rewrite IH.
    + destruct (Ascii.eqb c "}").
      { rewrite then_line_feed_cons by reflexivity. now rewrite IH. }
      destruct (Ascii.eqb c "{"); [reflexivity|].
      destruct (is_field_operator c); [reflexivity | apply IH].
Qed.

Lemma render_line_feed (kw : kwargs) (its : list item) :
  render kw (then_line_feed its) = result_line_feed (render kw its).
Proof.
  induction its as [|it its IH]; [reflexivity|].
  destruct it as [c | n | | ]; try reflexivity.
  - rewrite then_line_feed_cons by reflexivity. cbn [render]. rewrite IH.
    destruct (render kw its) as [[s|e]|]; reflexivity.
  - rewrite then_line_feed_cons by reflexivity. cbn [render].
    destruct (field_value kw n) as [v|e]; [|reflexivity]. rewrite IH.
    destruct (render kw its) as [[s|e]|]; cbn [result_line_feed];
      [now rewrite app_assoc | reflexivity | reflexivity].
Qed.

Lemma format_line_feed (t : text) (sc : Scene) :
  format (t ++ [LF]) sc = result_line_feed (format t sc).
Proof. unfold format. now rewrite markup_line_feed, render_line_feed. Qed.

Lemma export_loop_line_feed (t : text) (scenes : list Scene) : forall acc,
  export_loop (t ++ [LF]) [] scenes acc = export_loop t [LF] scenes acc.
Proof.
  induction scenes as [|sc scenes IH]; intros acc; cbn [export_loop];
    [reflexivity|].
  rewrite format_line_feed.
  destruct (format t sc) as [[s|e]|]; cbn [result_line_feed];
    [|reflexivity|reflexivity].
  rewrite app_nil_r. apply IH.
Qed.

(** The multiline export is the single-line export of the template
    followed by a line feed: the two leave the same clipboard, messages
    and log, and end the same way, for every template and every list. *)
Theorem export_multiline_as_single_line (tb : toolbar) :
  export_single_line (with_template (export_template_lineedit tb ++ [LF]) tb)
  = match export_multiline tb with
    | Some (tb', r) =>
        Some (with_template (export_template_lineedit tb ++ [LF]) tb', r)
    | None => None
    end.
Proof.
  unfold export_single_line, export_multiline.
  change (current_list (with_template (export_template_lineedit tb ++ [LF]) tb))
    with (current_list tb).
  destruct (current_list tb) as [l|]; [|reflexivity].
  cbn [export_template_lineedit with_template].
  rewrite export_loop_line_feed.
  destruct (export_loop (export_template_lineedit tb) [LF] (items l) [])
    as [[s|e]|]; cbn [export_finish]; [reflexivity | | reflexivity].
  destruct (is_KeyError e); reflexivity.
Qed.

(** ** Completeness of the matcher *)

Lemma star_greedy_complete {R} p (k : text -> option R) (w s' : text) :
  Forall (fun a => p a = true) w -> is_some (k s') = true ->
  is_some (star_greedy p k (w ++ s')) = true.
Proof.
  intros F K. induction F as [|c w Hc F IH]; cbn [app].
  - destruct s' as [|c s']; cbn [star_greedy]; [exact K|].
    destruct (p c); [|exact K].
    destruct (star_greedy p k s'); [reflexivity | exact K].
  - cbn [star_greedy]. rewrite Hc.
    destruct (star_greedy p k (w ++ s')); [reflexivity | discriminate].
Qed.

Lemma star_lazy_complete {R} p (k : text -> option R) (w s' : text) :
  Forall (fun a => p a = true) w -> is_some (k s') = true ->
  is_some (star_lazy p k (w ++ s')) = true.
Proof.
  intros F K. induction F as [|c w Hc F IH]; cbn [app].
  - destruct s' as [|c s']; cbn [star_lazy];
      destruct (k _); [reflexivity | discriminate | reflexivity | discriminate].
  - cbn [star_lazy]. destruct (k (c :: w ++ s')); [reflexivity|].
    rewrite Hc. exact IH.
Qed.

(** If the pattern spans a prefix of the text in a way the continuation
    accepts, the matcher finds a match. *)
Lemma rmatch_complete {R} (r : regex) :
  forall w s' c c' (k : text -> captures -> option R),
    matches r w c c' -> is_some (k s' c') = true ->
    is_some (rmatch r (w ++ s') c k) = true.
Proof.
  induction r as [ | a | p | r1 IH1 r2 IH2 | r1 IH1 r2 IH2 | g p | n r IH];
    intros w s' c c' k M K; cbn [matches] in M; cbn [rmatch].
  - destruct M as [-> ->]. exact K.
  - destruct M as [-> ->]. cbn [app]. now rewrite Ascii.eqb_refl.
  - destruct M as [a [-> [Pa ->]]]. cbn [app]. now rewrite Pa.
  - destruct M as [w1 [w2 [c1 [-> [M1 M2]]]]]. rewrite <- app_assoc.
    eapply IH1; [exact M1|]. eapply IH2; eassumption.
  - destruct (rmatch r1 (w ++ s') c k) eqn:E; [reflexivity|].
    destruct M as [M|M].
    + pose proof (IH1 _ _ _ _ _ M K) as H. rewrite E in H. discriminate.
    + eapply IH2; eassumption.
  - destruct M as [F ->]. destruct g.
    + now apply star_greedy_complete.
    + now apply star_lazy_complete.
  - destruct M as [c1 [M ->]]. eapply IH; [exact M|].
    now rewrite firstn_matched.
Qed.

(** ** The gate of the export buttons *)

Lemma Lits_matches (s w : text) (c c' : captures) :
  matches (Lits s) w c c' <-> w = s /\ c' = c.
Proof.
  revert w c c'. induction s as [|a s IH]; intros w c c'; cbn [Lits matches].
  - tauto.
  - destruct s as [|b s].
    + cbn [matches]. tauto.
    + cbn [matches]. split.
      * intros [w1 [w2 [c1 [-> [[-> ->] M]]]]]. apply IH in M.
        destruct M as [-> ->]. auto.
      * intros [-> ->]. exists [a], (b :: s), c. repeat split. now apply IH.
Qed.

Lemma dot_no_line_feed (w : text) :
  Forall (fun a => dot a = true) w <-> ~ In LF w.
Proof.
  rewrite Forall_forall. unfold dot. split.
  - intros H Hin. specialize (H LF Hin). rewrite Ascii.eqb_refl in H.
    discriminate.
  - intros H a Ha. apply negb_true_iff. apply Ascii.eqb_neq.
    intros ->. contradiction.
Qed.

(** The export buttons are enabled exactly for the templates without
    line feed that contain [{start}], [{end}] or [{label}]. *)
Theorem export_buttons_enabled_iff (tb : toolbar) :
  export_buttons_enabled tb = true
  <-> ~ In LF (export_template_lineedit tb)
      /\ (contains (export_template_lineedit tb) (txt "{start}")
          \/ contains (export_template_lineedit tb) (txt "{end}")
          \/ contains (export_template_lineedit tb) (txt "{label}")).
Proof.
  unfold export_buttons_enabled, fullmatch.
  set (t := export_template_lineedit tb). split.
  - intros H.
    destruct (rmatch export_template_pattern t []
                (fun s' caps => if is_nil s' then Some caps else None))
      as [caps|] eqn:E; [clear H | discriminate].
    apply rmatch_sound in E. destruct E as [w [s' [c' [Ht [M K]]]]].
    destruct s'; [clear K | discriminate]. rewrite app_nil_r in Ht. subst w.
    unfold export_template_pattern in M. cbn [matches] in M.
    destruct M as [w1 [w23 [c1 [Ht [[F1 ->] [w2 [w3 [c2 [-> [M2 [F3 _]]]]]]]]]]].
    assert (W : (w2 = txt "{start}" \/ w2 = txt "{end}" \/ w2 = txt "{label}")).
    { unfold Word in M2.
      destruct M2 as [M2 | [M2 | M2]]; apply Lits_matches in M2;
        destruct M2 as [-> _]; auto. }
    rewrite Ht. split.
    + apply dot_no_line_feed in F1. apply dot_no_line_feed in F3.
      rewrite !in_app_iff. intros [H | [H | H]]; [auto | | auto].
      destruct W as [-> | [-> | ->]]; vm_compute in H; intuition discriminate.
    + destruct W as [-> | [-> | ->]]; [left | right; left | right; right];
        now exists w1, w3.
  - intros [N C].
    assert (P : exists w1 w2 w3,
               t = w1 ++ w2 ++ w3
               /\ (w2 = txt "{start}" \/ w2 = txt "{end}" \/ w2 = txt "{label}")).
    { destruct C as [[p [q H]] | [[p [q H]] | [p [q H]]]];
        exists p; eexists; exists q; (split; [exact H | auto]). }
    destruct P as [w1 [w2 [w3 [Ht W]]]].
    rewrite <- (app_nil_r t).
    apply rmatch_complete with (c' := []); [|reflexivity].
    rewrite Ht in N. rewrite !in_app_iff in N.
    unfold export_template_pattern. cbn [matches].
    exists w1, (w2 ++ w3), []. split; [exact Ht|]. split.
    + split; [|reflexivity]. apply dot_no_line_feed. tauto.
    + exists w2, w3, []. split; [reflexivity|]. split.
      * unfold Word.
        destruct W as [-> | [-> | ->]];
          [left | right; left | right; right]; now apply Lits_matches.
      * split; [|reflexivity]. apply dot_no_line_feed. tauto.
Qed.

(** The gate does not look at the other placeholders: a template may pass
    it and still be refused by the export. *)
Example export_gate_ex :
  export_buttons_enabled (exporting (txt "{start} {foo}") []) = true
  /\ export_multiline (exporting (txt "{start} {foo}") [])
     = Some (template_error (exporting (txt "{start} {foo}") []), Ok tt)
  /\ export_buttons_enabled (exporting (txt "frames") []) = false.
Proof. vm_compute. repeat split. Qed.

(** ** Saving and restoring the state *)

Lemma setstate_run (state : Mapping) (tb : toolbar) :
  exists tb',
    setstate state tb = (tb', Ok tt)
    /\ (current_lists tb' = current_lists tb
        /\ end_frame tb' = end_frame tb
        /\ current_list_index tb' = current_list_index tb
        /\ clipboard tb' = clipboard tb
        /\ messages tb' = messages tb)
    /\ (status_label tb' = status_text (first_frame tb') (second_frame tb')
        /\ add_to_list_button tb'
           = negb (current_list_index tb' =? -1)
             && (is_some (first_frame tb') || is_some (second_frame tb'))
        /\ toggle_first_frame_button tb'
           = toggle_first_frame_button tb || is_some (first_frame tb')
        /\ toggle_second_frame_button tb'
           = toggle_second_frame_button tb || is_some (second_frame tb')).
Proof.
  setstate_cases state tb;
    (eexists; split; [reflexivity|]);
    cbn -[status_text Z.eqb] in *;
    repeat match goal with
           | H : is_some ?o = _ |- _ => destruct o; try discriminate H; clear H
           end;
    cbn -[status_text Z.eqb];
    rewrite ?orb_true_r, ?orb_false_r; repeat split.
Qed.

(** Restoring never raises and never touches the scening lists, the
    selected list, the clipboard or the messages of the main window,
    whatever the mapping and whatever the toolbar. *)
Theorem setstate_keeps_lists (state : Mapping) (tb : toolbar) :
  exists tb',
    setstate state tb = (tb', Ok tt)
    /\ current_lists tb' = current_lists tb
    /\ end_frame tb' = end_frame tb
    /\ current_list_index tb' = current_list_index tb
    /\ clipboard tb' = clipboard tb
    /\ messages tb' = messages tb.
Proof.
  destruct (setstate_run state tb) as [tb' [E [K _]]]. now exists tb'.
Qed.

(** After a restore the status label shows the two frames the toolbar
    now holds, "Add to List" is enabled exactly when a list is selected
    and a frame is set, and a toggle button is checked when its frame is
    set; a toggle that was checked before stays checked. *)
Theorem setstate_widgets (state : Mapping) (tb : toolbar) :
  exists tb',
    setstate state tb = (tb', Ok tt)
    /\ status_label tb' = status_text (first_frame tb') (second_frame tb')
    /\ add_to_list_button tb'
       = negb (current_list_index tb' =? -1)
         && (is_some (first_frame tb') || is_some (second_frame tb'))
    /\ toggle_first_frame_button tb'
       = toggle_first_frame_button tb || is_some (first_frame tb')
    /\ toggle_second_frame_button tb'
       = toggle_second_frame_button tb || is_some (second_frame tb').
Proof.
  destruct (setstate_run state tb) as [tb' [E [_ W]]]. now exists tb'.
Qed.

Lemma getitem_getstate (tb : toolbar) :
  getitem (getstate tb) (txt "first_frame")
  = Ok (pyobject_of_frame (first_frame tb))
  /\ getitem (getstate tb) (txt "second_frame")
     = Ok (pyobject_of_frame (second_frame tb))
  /\ getitem (getstate tb) (txt "label") = Ok (PyStr (label_lineedit tb))
  /\ getitem (getstate tb) (txt "scening_export_template")
     = Ok (PyStr (export_template_lineedit tb))
  /\ getitem (getstate tb) (txt "settings")
     = Raise (KeyError (txt "settings")).
Proof. repeat split. Qed.

Lemma frame_entry_of_frame (f : option Frame) :
  frame_entry (pyobject_of_frame f) = Ok f.
Proof. now destruct f. Qed.

(** What [__getstate__] saves, [__setstate__] restores: on any toolbar,
    restoring the saved mapping gives a toolbar that saves to the same
    mapping (same two frames, label and template).  The mapping has no
    entry for the settings, which [__setstate__] asks for: every such
    restore logs the warning about them, and nothing else. *)
Theorem setstate_getstate (tb tb0 : toolbar) :
  exists tb',
    setstate (getstate tb) tb0 = (tb', Ok tt)
    /\ getstate tb' = getstate tb
    /\ warnings tb' = warnings tb0 ++ [storage_warning (txt "settings")].
Proof.
  destruct (getitem_getstate tb) as [G1 [G2 [G3 [G4 G5]]]].
  unfold setstate, restore_first_frame, restore_second_frame, try_load,
    try_except, bind, lift, get, modify, ret.
  rewrite G1, G2, G3, G4, G5, !frame_entry_of_frame.
  destruct (first_frame tb) as [f|] eqn:F1;
    destruct (second_frame tb) as [s|] eqn:F2;
    cbn -[getstate storage_warning];
    (eexists; split; [reflexivity|]);
    unfold getstate; cbn -[storage_warning]; rewrite ?F1, ?F2;
    split; reflexivity.
Qed.
(** ** The outcomes of [import_file] *)

Lemma store_after_add (ls : list SceningList) (l l' : SceningList) :
  firstn (List.length ls) (ls ++ [l]) ++ l' :: skipn (S (List.length ls)) (ls ++ [l])
  = ls ++ [l'].
Proof.
  rewrite (skipn_all2 (n := S (List.length ls)))
    by (rewrite length_app; simpl; lia).
  rewrite firstn_app, Nat.sub_diag, firstn_all. simpl. now rewrite app_nil_r.
Qed.

Lemma remove_after_store (ls : list SceningList) (l : SceningList) :
  firstn (List.length ls) (ls ++ [l]) ++ skipn (S (List.length ls)) (ls ++ [l])
  = ls.
Proof.
  rewrite (skipn_all2 (n := S (List.length ls)))
    by (rewrite length_app; simpl; lia).
  rewrite firstn_app, Nat.sub_diag, firstn_all. simpl. now rewrite !app_nil_r.
Qed.

Lemma new_index_in_range (ls : list SceningList) (l : SceningList) :
  negb ((0 <=? Z.of_nat (List.length ls))
        && (Z.of_nat (List.length ls) <? Z.of_nat (List.length (ls ++ [l]))))
  = false.
Proof.
  rewrite length_app. simpl.
  replace (0 <=? Z.of_nat (List.length ls)) with true by (symmetry; apply Z.leb_le; lia).
  replace (Z.of_nat (List.length ls) <? Z.of_nat (List.length ls + 1)) with true
    by (symmetry; apply Z.ltb_lt; lia).
  reflexivity.
Qed.

(** An exception of the importer leaves the body of [import_file] as it
    is, for no handler is there; the list that was created for the file
    stays among the lists of the output, after the others, with the
    scenes read so far, and no warning of [import_file] is logged. *)
Theorem import_file_raises (import_func : Importer) (path : Path)
    (tb : toolbar) (st : import_state) (e : exn)
    (H : import_func (read_text path) (import_start path tb) = (st, Raise e)) :
  exists tb',
    import_file import_func path tb = (tb', Raise e)
    /\ current_lists tb' = current_lists tb ++ [scening_list st]
    /\ warnings tb' = log st.
Proof.
  unfold import_file, SceningLists_add, import_start in *. cbn [warnings with_lists].
  rewrite H. eexists. split; [reflexivity|].
  unfold store_list. cbn. rewrite store_after_add. repeat split.
Qed.

Lemma import_file_raises_witness :
  exists tb',
    import_file import_simple
      (mkPath (txt "scenes") (txt "scenes.txt") (lines ["3 7"; "5"; "8 9"]))
      (toolbar_with 100 [] (-1) []) = (tb', Raise IndexError)
    /\ current_lists tb'
       = [] ++ [mkSceningList (txt "scenes") 100 [mkScene 3 (Some 7) []]]
    /\ warnings tb' = [].
Proof.
  exact (import_file_raises import_simple
           (mkPath (txt "scenes") (txt "scenes.txt") (lines ["3 7"; "5"; "8 9"]))
           (toolbar_with 100 [] (-1) [])
           (mkImportState
              (mkSceningList (txt "scenes") 100 [mkScene 3 (Some 7) []]) 0 [])
           IndexError eq_refl).
Defined.

(** When the importer returns, [import_file] returns as well.  If the
    new list is empty it is removed again, so that the lists of the
    output are as before, and the only trace is the warning that nothing
    was imported; otherwise the new list is the last list of the output,
    its index passes the range test of the setter and becomes the
    selection, and [import_file] logs nothing. *)
Theorem import_file_returns (import_func : Importer) (path : Path)
    (tb : toolbar) (st : import_state)
    (H : import_func (read_text path) (import_start path tb) = (st, Ok tt)) :
  exists tb',
    import_file import_func path tb = (tb', Ok tt)
    /\ match items (scening_list st) with
       | [] =>
           current_lists tb' = current_lists tb
           /\ warnings tb' = log st ++ [nothing_imported_warning path]
       | _ :: _ =>
           current_lists tb' = current_lists tb ++ [scening_list st]
           /\ current_list_index tb'
              = Z.of_nat (List.length (current_lists tb))
           /\ warnings tb' = log st
       end.
Proof.
  unfold import_file, SceningLists_add, import_start in *. cbn [warnings with_lists].
  rewrite H. cbn [Z.ltb Z.compare].
  destruct (items (scening_list st)) as [|sc scs] eqn:I; cbn [List.length Nat.eqb].
  - eexists. split; [reflexivity|].
    unfold SceningLists_remove, store_list. cbn.
    rewrite store_after_add, remove_after_store. repeat split.
  - unfold set_current_list_index, store_list. cbn [current_lists with_warnings with_lists].
    rewrite store_after_add, new_index_in_range.
    eexists. split; [reflexivity|]. repeat split.
Qed.

Lemma import_file_returns_witness :
  exists tb',
    import_file import_simple
      (mkPath (txt "scenes") (txt "scenes.txt") (lines ["3 7"; "8 9"]))
      (toolbar_with 100 [] (-1) []) = (tb', Ok tt)
    /\ current_lists tb'
       = [] ++ [mkSceningList (txt "scenes") 100
                  [mkScene 3 (Some 7) []; mkScene 8 (Some 9) []]]
    /\ current_list_index tb' = Z.of_nat (List.length (@nil SceningList))
    /\ warnings tb' = [].
Proof.
  exact (import_file_returns import_simple
           (mkPath (txt "scenes") (txt "scenes.txt") (lines ["3 7"; "8 9"]))
           (toolbar_with 100 [] (-1) [])
           (mkImportState
              (mkSceningList (txt "scenes") 100
                 [mkScene 3 (Some 7) []; mkScene 8 (Some 9) []]) 0 [])
           eq_refl).
Defined.

(** ** Selecting a list *)

(** [switch_list] never raises and never changes the lists: an index of
    an existing list becomes the selection, any other index leaves the
    toolbar as it was. *)
Theorem switch_list_never_raises (index : Z) (tb : toolbar) :
  exists tb',
    switch_list index tb = (tb', Ok tt)
    /\ current_lists tb' = current_lists tb
    /\ ((0 <= index < Z.of_nat (List.length (current_lists tb))
         /\ current_list_index tb' = index)
        \/ (~ 0 <= index < Z.of_nat (List.length (current_lists tb))
            /\ tb' = tb)).
Proof.
  unfold switch_list, try_except, set_current_list_index, ret.
  destruct (0 <=? index) eqn:A;
    destruct (index <? Z.of_nat (List.length (current_lists tb))) eqn:B;
    cbn; eexists; (split; [reflexivity|]); split; try reflexivity;
    try apply Z.leb_le in A; try apply Z.leb_gt in A;
    try apply Z.ltb_lt in B; try apply Z.ltb_ge in B;
    solve [left; split; [lia | reflexivity] | right; split; [lia | reflexivity]].
Qed.

(** "Add List" cannot fail: the index [SceningLists.add] returns always
    passes the range test of the setter, and the new, empty list, put
    after the lists the output already had, becomes the selection. *)
Theorem on_add_list_clicked_selects (default_name : text) (tb : toolbar) :
  exists tb',
    on_add_list_clicked default_name tb = (tb', Ok tt)
    /\ current_lists tb'
       = current_lists tb ++ [mkSceningList default_name (end_frame tb) []]
    /\ current_list_index tb' = Z.of_nat (List.length (current_lists tb)).
Proof.
  unfold on_add_list_clicked, SceningLists_add, set_current_list_index.
  cbn [current_lists with_lists].
  rewrite new_index_in_range. eexists. split; [reflexivity|].
  split; reflexivity.
Qed.
